(** * The dotfiles symlink manager ([dotfiles/symlink_manager.py])

    A shallow embedding of the script and the properties the specification
    states about it.

    Layout of the development:
    - [Str]      the string operations of Python the script relies on
                 ([split], [strip], [lower], [rfind], [join]);
    - [Pathlib]  pure paths as [pathlib.PurePosixPath] has them: parsing,
                 [str], [/], [name], [parent], [suffix], [with_suffix];
    - [Fs]       the filesystem the script acts on: a finite map from
                 paths to nodes, with the system calls behind
                 [Path.exists], [is_symlink], [mkdir], [unlink],
                 [rename] and [symlink_to];
    - [Py]       a state-and-exception monad: the world (filesystem, log
                 output, system calls performed) survives a raised
                 exception, as it does in Python;
    - [Manager]  [get_default_config_dir], class [DotfilesManager] and
                 [main];
    - the theorems.

    Scope of the model.  A string is a sequence of code points below 256
    (ASCII and Latin-1); characters beyond that are outside the model.
    Paths are those of a POSIX host.  The filesystem has no permissions, and a path names its
    own node: two different paths are never aliases of one node, so
    directories reached through a symlinked ancestor or through [..] are
    outside the model.  The symlink the script follows at the end of a
    path ([Path.exists] on a link) is followed, up to the 40 links Linux
    allows. *)

From Stdlib Require Import Ascii String.
From stdpp Require Import base option list strings gmap fin_maps.

Open Scope string_scope.

(** ** Strings *)

Module Str.

(** [sep in s] for a one-character [sep]. *)
Fixpoint contains (c : ascii) (s : string) : bool :=
  match s with
  | EmptyString => false
  | String a s' => if Ascii.eqb a c then true else contains c s'
  end.

(** [s.rfind(c)]: the index of the last [c]; [None] stands for [-1]. *)
Fixpoint rfind (c : ascii) (s : string) : option nat :=
  match s with
  | EmptyString => None
  | String a s' =>
      match rfind c s' with
      | Some i => Some (S i)
      | None => if Ascii.eqb a c then Some 0 else None
      end
  end.

(** [s.split(c)]: never empty, [''.split(',') == ['']]. *)
Fixpoint split (c : ascii) (s : string) : list string :=
  match s with
  | EmptyString => [EmptyString]
  | String a s' =>
      if Ascii.eqb a c then EmptyString :: split c s'
      else match split c s' with
           | w :: ws => String a w :: ws
           | [] => [String a EmptyString]
           end
  end.

(** [sep.join(l)]. *)
Fixpoint join (sep : string) (l : list string) : string :=
  match l with
  | [] => EmptyString
  | [x] => x
  | x :: l' => x ++ sep ++ join sep l'
  end.

(** [c.isspace()] on a code point below 256: tab, line feed, vertical
    tab, form feed, carriage return, the four separators 28..31, the
    space, next line (U+0085) and the no-break space (U+00A0). *)
Definition isspace (c : ascii) : bool :=
  let n := nat_of_ascii c in
  (((9 <=? n) && (n <=? 13)) || ((28 <=? n) && (n <=? 32))
   || (n =? 133) || (n =? 160))%nat.

Fixpoint lstrip (s : string) : string :=
  match s with
  | EmptyString => EmptyString
  | String a s' => if isspace a then lstrip s' else s
  end.

Fixpoint rstrip (s : string) : string :=
  match s with
  | EmptyString => EmptyString
  | String a s' =>
      match rstrip s' with
      | EmptyString => if isspace a then EmptyString else String a EmptyString
      | r => String a r
      end
  end.

(** [s.strip()]. *)
Definition strip (s : string) : string := rstrip (lstrip s).

(** [c.lower()] on a code point below 256: the letters [A]..[Z], and
    the Latin-1 capitals U+00C0..U+00DE but the multiplication sign
    U+00D7, are moved 32 up. *)
Definition lower_char (c : ascii) : ascii :=
  let n := nat_of_ascii c in
  if (((65 <=? n) && (n <=? 90))
      || ((192 <=? n) && (n <=? 222) && negb (n =? 215)))%nat
  then ascii_of_nat (n + 32) else c.

(** [s.lower()]. *)
Fixpoint lower (s : string) : string :=
  match s with
  | EmptyString => EmptyString
  | String a s' => String (lower_char a) (lower s')
  end.

(** [s.startswith(c)]. *)
Definition startswith (c : ascii) (s : string) : bool :=
  match s with
  | String a _ => Ascii.eqb a c
  | EmptyString => false
  end.

(** Truth value of a string: [bool(s)]. *)
Definition truthy (s : string) : bool :=
  match s with EmptyString => false | _ => true end.

End Str.

(** ** Pure paths *)

Module Pathlib.

(** The root of a POSIX path: none (a relative path), [/], or the
    implementation-defined [//] that exactly two leading slashes give. *)
Inductive Root := NoRoot | Slash | TwoSlashes.

Record Path := mkPath { root : Root; parts : list string }.

Definition root_str (r : Root) : string :=
  match r with NoRoot => "" | Slash => "/" | TwoSlashes => "//" end.

(** [posixpath.splitroot]: the root and what follows it. *)
Definition splitroot (p : string) : Root * string :=
  match p with
  | String "/" (String "/" (String "/" rest)) => (Slash, String "/" (String "/" rest))
  | String "/" (String "/" rest) => (TwoSlashes, rest)
  | String "/" rest => (Slash, rest)
  | _ => (NoRoot, p)
  end.

(** The components kept by the parser: [x for x in rel.split('/') if x
    and x != '.']. *)
Definition keep_part (x : string) : bool :=
  Str.truthy x && negb (String.eqb x ".").

Definition parse_parts (rel : string) : list string :=
  filter (fun x => Is_true (keep_part x)) (Str.split "/" rel).

(** [Path(s)]. *)
Definition Path_of (s : string) : Path :=
  let '(r, rel) := splitroot s in mkPath r (parse_parts rel).

(** [str(p)]. *)
Definition str (p : Path) : string :=
  match root p, parts p with
  | NoRoot, [] => "."
  | r, ps => root_str r ++ Str.join "/" ps
  end.

(** [p / key]: an absolute [key] replaces [p]. *)
Definition joinpath (p : Path) (key : string) : Path :=
  let k := Path_of key in
  match root k with
  | NoRoot => mkPath (root p) (parts p ++ parts k)
  | _ => k
  end.

(** [p.name]. *)
Definition name (p : Path) : string := List.last (parts p) "".

(** [p.parent]: a path without components is its own parent. *)
Definition parent (p : Path) : Path :=
  mkPath (root p) (List.removelast (parts p)).

(** [p.suffix]:
    [i = name.rfind('.'); name[i:] if 0 < i < len(name) - 1 else '']. *)
Definition suffix_of_name (nm : string) : string :=
  match Str.rfind "." nm with
  | Some i =>
      if ((0 <? i) && (S i <? String.length nm))%nat
      then String.substring i (String.length nm - i) nm
      else ""
  | None => ""
  end.

Definition suffix (p : Path) : string := suffix_of_name (name p).

Inductive SuffixError :=
| InvalidSuffix (suffix : string)
| EmptyName (p : Path).

(** [p.with_suffix(suffix)]: the last component with its suffix
    replaced, or with [suffix] appended when it has none. *)
Definition with_suffix (p : Path) (sfx : string) : SuffixError + Path :=
  if Str.contains "/" sfx then inl (InvalidSuffix sfx)
  else if (Str.truthy sfx && negb (Str.startswith "." sfx)) || String.eqb sfx "."
  then inl (InvalidSuffix sfx)
  else
    let nm := name p in
    if negb (Str.truthy nm) then inl (EmptyName p)
    else
      let old_suffix := suffix p in
      let nm' :=
        if negb (Str.truthy old_suffix) then nm ++ sfx
        else String.substring 0 (String.length nm - String.length old_suffix) nm ++ sfx in
      inr (mkPath (root p) (List.removelast (parts p) ++ [nm'])).

End Pathlib.

Import Pathlib.

Notation "p </> s" := (joinpath p s) (at level 40, left associativity).

(** ** The filesystem *)

Module Fs.

Inductive Node :=
| File (contents : string)
| Dir
| Symlink (referent : Path).

Inductive Errno := EEXIST | ENOENT | ENOTDIR | EISDIR | ENOTEMPTY | EINVAL | ELOOP.

#[global] Instance Root_eq_dec : EqDecision Root.
Proof. solve_decision. Defined.

#[global] Instance Path_eq_dec : EqDecision Path.
Proof. solve_decision. Defined.

#[global] Instance Root_countable : Countable Root.
Proof.
  refine (inj_countable'
            (fun r => match r with NoRoot => 0 | Slash => 1 | TwoSlashes => 2 end)
            (fun n => match n with 0 => NoRoot | 1 => Slash | _ => TwoSlashes end) _).
  by intros [].
Defined.

#[global] Instance Path_countable : Countable Path.
Proof.
  refine (inj_countable' (fun p => (root p, parts p))
                         (fun rp => mkPath rp.1 rp.2) _).
  by intros [].
Defined.

#[global] Instance Node_eq_dec : EqDecision Node.
Proof. solve_decision. Defined.

#[global] Instance Errno_eq_dec : EqDecision Errno.
Proof. solve_decision. Defined.

(** The state of the filesystem. *)
Abbreviation t := (gmap Path Node).

(** [lstat]: the node at a path, a symlink not followed. *)
Definition lstat (fs : t) (p : Path) : option Node := fs !! p.

(** Where a link found at [link] points: a relative referent is taken
    from the directory that holds the link. *)
Definition referent_from (link referent : Path) : Path :=
  match root referent with
  | NoRoot => mkPath (root link) (parts (parent link) ++ parts referent)
  | _ => referent
  end.

(** [stat]: the node at a path, symlinks followed; more than
    [n] links in a row is [ELOOP]. *)
Fixpoint stat_follow (n : nat) (fs : t) (p : Path) : Errno + Node :=
  match fs !! p with
  | None => inl ENOENT
  | Some (Symlink q) =>
      match n with
      | 0 => inl ELOOP
      | S n' => stat_follow n' fs (referent_from p q)
      end
  | Some nd => inr nd
  end.

Definition MAXSYMLINKS : nat := 40.

Definition stat (fs : t) (p : Path) : Errno + Node := stat_follow MAXSYMLINKS fs p.

(** [Path.exists()]: [stat] succeeds (the errors [stat] can give here
    are all among those [pathlib] turns into [False]). *)
Definition exists_ (fs : t) (p : Path) : bool :=
  match stat fs p with inr _ => true | inl _ => false end.

(** [Path.is_dir()]. *)
Definition is_dir (fs : t) (p : Path) : bool :=
  match stat fs p with inr Dir => true | _ => false end.

(** [Path.is_symlink()]. *)
Definition is_symlink (fs : t) (p : Path) : bool :=
  match lstat fs p with Some (Symlink _) => true | _ => false end.

(** Whether the way down to a missing path is barred by something that
    is not a directory.  The kernel walks a path from the root and stops
    at the first component it cannot enter; on a tree that is the nearest
    ancestor that exists, here looked for from the path [rev rparts]
    upwards. *)
Fixpoint not_dir_above (fs : t) (r : Root) (rparts : list string) : bool :=
  match rparts with
  | [] => false
  | _ :: up =>
      match fs !! mkPath r (rev up) with
      | None => not_dir_above fs r up
      | Some _ =>
          match stat fs (mkPath r (rev up)) with
          | inr Dir => false
          | inr _ => true
          | inl _ => false
          end
      end
  end.

(** The directory a new name is entered in must resolve to a
    directory.  When it is missing the error is [ENOENT], unless a file
    lies on the way to it, which gives [ENOTDIR]. *)
Definition dir_for (fs : t) (p : Path) : Errno + unit :=
  match stat fs (parent p) with
  | inl e =>
      match fs !! parent p with
      | None =>
          if not_dir_above fs (root p) (rev (parts (parent p)))
          then inl ENOTDIR else inl e
      | Some _ => inl e
      end
  | inr Dir => inr tt
  | inr _ => inl ENOTDIR
  end.

(** [os.mkdir(p)].  (A name that exists lies in a directory, so which
    of the two checks comes first cannot be told on a real tree.) *)
Definition mkdir (fs : t) (p : Path) : Errno + t :=
  match fs !! p with
  | Some _ => inl EEXIST
  | None =>
      match dir_for fs p with
      | inl e => inl e
      | inr _ => inr (<[p := Dir]> fs)
      end
  end.

(** [os.unlink(p)]. *)
Definition unlink (fs : t) (p : Path) : Errno + t :=
  match fs !! p with
  | None => inl ENOENT
  | Some Dir => inl EISDIR
  | Some _ => inr (delete p fs)
  end.

(** [os.symlink(referent, p)]. *)
Definition symlink (fs : t) (referent p : Path) : Errno + t :=
  match fs !! p with
  | Some _ => inl EEXIST
  | None =>
      match dir_for fs p with
      | inl e => inl e
      | inr _ => inr (<[p := Symlink referent]> fs)
      end
  end.

(** [k] lies strictly below the directory [d]. *)
Definition below (d k : Path) : bool :=
  bool_decide (root d = root k)
  && bool_decide (parts d `prefix_of` parts k)
  && negb (bool_decide (parts d = parts k)).

Definition has_entries (fs : t) (d : Path) : bool :=
  existsb (fun kv => below d kv.1) (map_to_list fs).

(** The name a node at or below [old] gets when [old] becomes [new]. *)
Definition rekey (old new k : Path) : Path :=
  if bool_decide (k = old) || below old k
  then mkPath (root new) (parts new ++ drop (length (parts old)) (parts k))
  else k.

(** [os.rename(old, new)]: a file or link replaces what is at [new]
    unless that is a directory; a directory moves with all below it and
    may only replace an empty directory. *)
Definition rename (fs : t) (old new : Path) : Errno + t :=
  match fs !! old with
  | None => inl ENOENT
  | Some nd =>
      match dir_for fs new with
      | inl e => inl e
      | inr _ =>
          if bool_decide (old = new) then inr fs
          else
            match nd with
            | Dir =>
                if below old new then inl EINVAL
                else
                  match fs !! new with
                  | None => inr (kmap (rekey old new) fs)
                  | Some Dir =>
                      if has_entries fs new then inl ENOTEMPTY
                      else inr (kmap (rekey old new) (delete new fs))
                  | Some _ => inl ENOTDIR
                  end
            | _ =>
                match fs !! new with
                | Some Dir => inl EISDIR
                | _ => inr (<[new := nd]> (delete old fs))
                end
            end
      end
  end.

End Fs.

(** ** Python's effects: a world, and exceptions that leave it as it is *)

Module Py.

Inductive exn :=
| ValueError (msg : string)
| KeyError (key : string)
| OSError (errno : Fs.Errno) (filename : Path) (filename2 : option Path)
| SystemExit (code : nat).

(** [except Exception] catches every exception of the script but
    [SystemExit], which derives from [BaseException]. *)
Definition is_Exception (e : exn) : bool :=
  match e with SystemExit _ => false | _ => true end.

Inductive Level := INFO | WARNING | ERROR.

(** The messages the script logs, each with its format string. *)
Inductive Message :=
| UnsupportedPlatform (system : string)
    (* "Unsupported platform {system}, defaulting to ~/.config" *)
| SourceMissing (source : Path)
    (* "Source {source} does not exist" *)
| BackingUp (target backup : Path)
    (* "Backing up existing {target} to {backup}" *)
| CreatedSymlink (target source : Path)
    (* "Created symlink: {target} -> {source}" *)
| ErrorCreating (target : Path) (e : exn)
    (* "Error creating symlink {target}: {e}" *)
| ErrorMsg (e : exn).
    (* "Error: {e}" *)

(** What the process writes to standard output. *)
Inductive Output :=
| Log (level : Level) (msg : Message)
| Help.

(** The system calls that change the filesystem. *)
Inductive Syscall :=
| SysMkdir (p : Path)
| SysUnlink (p : Path)
| SysRename (old new : Path)
| SysSymlink (referent p : Path).

Record World := mkWorld {
  files : Fs.t;
  stdout : list Output;
  performed : list Syscall   (* successful mutating calls, oldest first *)
}.

Inductive Outcome (A : Type) :=
| Return (a : A)
| Raise (e : exn).
Arguments Return {A} a.
Arguments Raise {A} e.

Definition M (A : Type) : Type := World -> World * Outcome A.

Definition ret {A} (a : A) : M A := fun w => (w, Return a).

Definition bind {A B} (m : M A) (k : A -> M B) : M B :=
  fun w =>
    match m w with
    | (w', Return a) => k a w'
    | (w', Raise e) => (w', Raise e)
    end.

Definition raise {A} (e : exn) : M A := fun w => (w, Raise e).

(** [try: body  except <clause>: handler]: [handler e] is [None] when the
    clause does not match [e], which then propagates. *)
Definition try_except {A} (body : M A) (handler : exn -> option (M A)) : M A :=
  fun w =>
    match body w with
    | (w', Raise e) =>
        match handler e with
        | Some h => h w'
        | None => (w', Raise e)
        end
    | r => r
    end.

#[global] Instance M_ret : MRet M := @ret.
#[global] Instance M_bind : MBind M := fun A B k m => bind m k.
#[global] Instance M_throw : MThrow exn M := @raise.

(** Reading the filesystem. *)
Definition ask {A} (f : Fs.t -> A) : M A := fun w => (w, Return (f (files w))).

(** A mutating system call: on success the filesystem is replaced and the
    call recorded, on failure [OSError] is raised and nothing changes. *)
Definition syscall (call : Fs.t -> Fs.Errno + Fs.t) (what : Syscall)
    (filename : Path) (filename2 : option Path) : M unit :=
  fun w =>
    match call (files w) with
    | inr fs' => (mkWorld fs' (stdout w) (performed w ++ [what]), Return tt)
    | inl e => (w, Raise (OSError e filename filename2))
    end.

Definition emit (o : Output) : M unit :=
  fun w => (mkWorld (files w) (stdout w ++ [o]) (performed w), Return tt).

Module logger.
Definition info (msg : Message) : M unit := emit (Log INFO msg).
Definition warning (msg : Message) : M unit := emit (Log WARNING msg).
Definition error (msg : Message) : M unit := emit (Log ERROR msg).
End logger.

(** [for x in l: body(x)]. *)
Fixpoint for_each {A} (l : list A) (body : A -> M unit) : M unit :=
  match l with
  | [] => ret tt
  | x :: l' => bind (body x) (fun _ => for_each l' body)
  end.

(** *** [pathlib.Path] methods that touch the filesystem *)

Definition exists_ (p : Path) : M bool := ask (fun fs => Fs.exists_ fs p).
Definition is_symlink (p : Path) : M bool := ask (fun fs => Fs.is_symlink fs p).
Definition is_dir (p : Path) : M bool := ask (fun fs => Fs.is_dir fs p).

Definition os_mkdir (p : Path) : M unit :=
  syscall (fun fs => Fs.mkdir fs p) (SysMkdir p) p None.

(** What [Path.mkdir] does with an [OSError] other than
    [FileNotFoundError] when [exist_ok] is set:
    [if not exist_ok or not self.is_dir(): raise]. *)
Definition unless_is_dir (p : Path) (e : exn) : M unit :=
  b ← is_dir p; if b : bool then ret tt else raise e.

(** [Path.mkdir(parents=False, exist_ok=True)]. *)
Definition mkdir_exist_ok (p : Path) : M unit :=
  try_except (os_mkdir p)
    (fun e => match e with
              | OSError Fs.ENOENT _ _ => None
              | OSError _ _ _ => Some (unless_is_dir p e)
              | _ => None
              end).

(** [Path.mkdir(parents=True, exist_ok=True)] on the path with root [r]
    and components [rev rparts]; the recursive call is on the parent:
<<
    try: os.mkdir(self, mode)
    except FileNotFoundError:
        if not parents or self.parent == self: raise
        self.parent.mkdir(parents=True, exist_ok=True)
        self.mkdir(mode, parents=False, exist_ok=exist_ok)
    except OSError:
        if not exist_ok or not self.is_dir(): raise
>> *)
Fixpoint mkdir_parents_from (r : Root) (rparts : list string) : M unit :=
  let self := mkPath r (rev rparts) in
  try_except (os_mkdir self)
    (fun e => match e with
              | OSError Fs.ENOENT _ _ =>
                  match rparts with
                  | [] => None
                  | _ :: up =>
                      Some (mkdir_parents_from r up ;; mkdir_exist_ok self)
                  end
              | OSError _ _ _ => Some (unless_is_dir self e)
              | _ => None
              end).

Definition mkdir_parents (p : Path) : M unit :=
  mkdir_parents_from (root p) (rev (parts p)).

(** [Path.unlink()]. *)
Definition unlink (p : Path) : M unit :=
  syscall (fun fs => Fs.unlink fs p) (SysUnlink p) p None.

(** [Path.rename(new)]. *)
Definition rename (p new : Path) : M unit :=
  syscall (fun fs => Fs.rename fs p new) (SysRename p new) p (Some new).

(** [Path.symlink_to(referent)], that is [os.symlink(referent, p)]. *)
Definition symlink_to (p referent : Path) : M unit :=
  syscall (fun fs => Fs.symlink fs referent p) (SysSymlink referent p)
          referent (Some p).

(** [Path.with_suffix], its errors raised as [ValueError]. *)
Definition with_suffix (p : Path) (sfx : string) : M Path :=
  match Pathlib.with_suffix p sfx with
  | inr q => ret q
  | inl (InvalidSuffix x) => raise (ValueError ("Invalid suffix '" ++ x ++ "'"))
  | inl (EmptyName q) =>
      raise (ValueError ("PosixPath('" ++ str q ++ "') has an empty name"))
  end.

End Py.

(** ** The script *)

Module Manager.

Import Py.

(** What the process finds when it starts: [platform.system()], the home
    directory [os.path.expanduser("~")] that [Path.home()] parses, and
    [os.environ]. *)
Record Host := mkHost {
  platform_system : string;
  expanduser_home : string;
  environ : gmap string string
}.

(** [os.getenv(key, default)]. *)
Definition getenv (h : Host) (key default : string) : string :=
  match environ h !! key with
  | Some v => v
  | None => default
  end.

(** [Path.home()], on a host whose home directory can be determined
    (otherwise [Path.home()] raises [RuntimeError], which is outside the
    model). *)
Definition Path_home (h : Host) : Path := Path_of (expanduser_home h).

Definition get_default_config_dir (h : Host) : M Path :=
  let system := Str.lower (platform_system h) in
  if String.eqb system "darwin" then
    ret (Path_home h </> "Library" </> "Application Support")
  else if String.eqb system "linux" then
    ret (Path_home h </> ".config")
  else
    logger.warning (UnsupportedPlatform system) ;;
    ret (Path_home h </> ".config").

(** An entry of the mapping table: [{"source": ..., "target": ...}]. *)
Record Mapping := mkMapping { source : Path; target : Path }.

(** A [dict] with string keys, in insertion order. *)
Abbreviation dict V := (list (string * V)).

Fixpoint dict_get {V} (d : dict V) (key : string) : option V :=
  match d with
  | [] => None
  | (k, v) :: d' => if String.eqb k key then Some v else dict_get d' key
  end.

(** [key in d]. *)
Definition dict_in {V} (key : string) (d : dict V) : bool :=
  match dict_get d key with Some _ => true | None => false end.

(** [d.keys()]. *)
Definition keys {V} (d : dict V) : list string := d.*1.

Record DotfilesManager := mkManager {
  dotfiles_dir : Path;
  home_dir : Path;
  config_dir : Path;
  config_mapping : dict Mapping
}.

(** The table [_load_config_mapping] assigns to [self.config_mapping]. *)
Definition _load_config_mapping (dotfiles_dir home_dir config_dir : Path) : dict Mapping :=
  [ ("bashrc",
      {| source := dotfiles_dir </> "bashrc";
         target := home_dir </> ".bashrc" |});
    ("bash_aliases",
      {| source := dotfiles_dir </> "bash_aliases";
         target := home_dir </> ".bash_aliases" |});
    ("bash_env",
      {| source := dotfiles_dir </> "bash_env";
         target := home_dir </> ".bash_env" |});
    ("npmrc",
      {| source := dotfiles_dir </> "npmrc";
         target := home_dir </> ".npmrc" |});
    ("git",
      {| source := dotfiles_dir </> "git" </> "config";
         target := home_dir </> ".git" </> "config" |});
    ("tmux",
      {| source := dotfiles_dir </> "tmux" </> "tmux.conf";
         target := home_dir </> "tmux" </> "tmux.conf" |});
    ("nvim-plugins",
      {| source := dotfiles_dir </> "nvim-plugins";
         target := config_dir </> "nvim" |});
    ("nvim-no-plugins",
      {| source := dotfiles_dir </> "nvim-no-plugins";
         target := config_dir </> "nvim" |});
    ("vscode",
      {| source := dotfiles_dir </> "vscode" </> "settings.json";
         target := config_dir </> "Code" </> "User" </> "settings.json" |});
    ("cursor",
      {| source := dotfiles_dir </> "cursor" </> "settings.json";
         target := config_dir </> "Cursor" </> "User" </> "settings.json" |}) ].

(** [DotfilesManager.__init__]: the default configuration root is
    computed (and its warning logged) before [os.getenv] looks the
    override up, as Python evaluates the arguments of a call first. *)
Definition __init__ (h : Host) (dotfiles_dir : Path) : M DotfilesManager :=
  let home_dir := Path_home h in
  default ← get_default_config_dir h;
  let config_dir := Path_of (getenv h "CONFIG_DIR" (str default)) in
  ret (mkManager dotfiles_dir home_dir config_dir
         (_load_config_mapping dotfiles_dir home_dir config_dir)).

(** [self.config_mapping[name]]. *)
Definition getitem (self : DotfilesManager) (name : string) : M Mapping :=
  match dict_get (config_mapping self) name with
  | Some m => ret m
  | None => raise (KeyError name)
  end.

(** *** [_check_duplicate_targets] *)

(** [target_to_dotfiles[target].append(name)], or a new group at the
    end of the dictionary. *)
Fixpoint add_to_group (target : Path) (name : string) (d : list (Path * list string))
  : list (Path * list string) :=
  match d with
  | [] => [(target, [name])]
  | (t, names) :: d' =>
      if decide (t = target) then (t, (names ++ [name])%list) :: d'
      else (t, names) :: add_to_group target name d'
  end.

Definition target_to_dotfiles (self : DotfilesManager) (dotfiles_to_process : list string)
  : list (Path * list string) :=
  foldl (fun d name =>
           match dict_get (config_mapping self) name with
           | Some m => add_to_group (target m) name d
           | None => d
           end)
        [] dotfiles_to_process.

Definition duplicates (self : DotfilesManager) (dotfiles_to_process : list string)
  : list (Path * list string) :=
  filter (fun g => 1 < length g.2) (target_to_dotfiles self dotfiles_to_process).

Definition newline : string := String (ascii_of_nat 10) "".

Definition error_msg (dups : list (Path * list string)) : string :=
  foldl (fun msg g =>
           msg ++ "  " ++ str g.1 ++ " is targeted by: " ++ Str.join ", " g.2 ++ newline)
        ("Found duplicate target paths:" ++ newline) dups.

Definition _check_duplicate_targets (self : DotfilesManager)
    (dotfiles_to_process : list string) : M unit :=
  match duplicates self dotfiles_to_process with
  | [] => ret tt
  | dups => raise (ValueError (error_msg dups))
  end.

(** *** [_create_symlink] *)

Definition _create_symlink (source target : Path) : M unit :=
  source_exists ← exists_ source;
  if negb source_exists then
    logger.warning (SourceMissing source)
  else
    mkdir_parents (parent target) ;;
    target_exists ← exists_ target;
    (if target_exists : bool then
       link ← is_symlink target;
       if link : bool then unlink target
       else
         backup ← with_suffix target ".backup";
         logger.info (BackingUp target backup) ;;
         rename target backup
     else ret tt) ;;
    try_except
      (symlink_to target source ;;
       logger.info (CreatedSymlink target source))
      (fun e => if is_Exception e
                then Some (logger.error (ErrorCreating target e))
                else None).

(** *** [symlink_all] and [symlink_specific] *)

(** [exclude = exclude or set()]. *)
Definition or_empty (exclude : option (gset string)) : gset string :=
  default ∅ exclude.

Definition link_each (self : DotfilesManager) (dotfiles_to_process : list string) : M unit :=
  for_each dotfiles_to_process (fun name =>
    mapping ← getitem self name;
    _create_symlink (source mapping) (target mapping)).

(** [[name for name in self.config_mapping.keys() if name not in exclude]]. *)
Definition selection_all (self : DotfilesManager) (exclude : gset string) : list string :=
  filter (fun name => name ∉ exclude) (keys (config_mapping self)).

Definition symlink_all (self : DotfilesManager) (exclude : option (gset string)) : M unit :=
  let exclude := or_empty exclude in
  let dotfiles_to_process := selection_all self exclude in
  _check_duplicate_targets self dotfiles_to_process ;;
  link_each self dotfiles_to_process.

(** [[name for name in dotfiles
      if name in self.config_mapping and name not in exclude]]. *)
Definition selection_specific (self : DotfilesManager) (dotfiles : list string)
    (exclude : gset string) : list string :=
  filter (fun name => Is_true (dict_in name (config_mapping self)) ∧ name ∉ exclude) dotfiles.

Definition symlink_specific (self : DotfilesManager) (dotfiles : list string)
    (exclude : option (gset string)) : M unit :=
  let exclude := or_empty exclude in
  let dotfiles_to_process := selection_specific self dotfiles exclude in
  _check_duplicate_targets self dotfiles_to_process ;;
  link_each self dotfiles_to_process.

(** *** [main] *)

(** The namespace [parser.parse_args()] returns. *)
Record Args := mkArgs {
  args_all : bool;
  args_limit : option string;
  args_exclude : option string;
  args_map : option string
}.

(** Truth value of an optional string: [None] and [''] are false. *)
Definition given (o : option string) : option string :=
  match o with
  | Some s => if Str.truthy s then Some s else None
  | None => None
  end.

Definition main (h : Host) (script_dir : Path) (args : Args) : M unit :=
  manager ← __init__ h script_dir;
  let exclude : gset string :=
    match given (args_exclude args) with
    | Some e => list_to_set (Str.split "," e)
    | None => ∅
    end in
  try_except
    (if args_all args then
       symlink_all manager (Some exclude)
     else
       match given (args_limit args) with
       | Some l =>
           let dotfiles := Str.strip <$> Str.split "," l in
           symlink_specific manager dotfiles (Some exclude)
       | None =>
           emit Help ;;
           raise (SystemExit 1)
       end)
    (fun e => match e with
              | ValueError _ =>
                  Some (logger.error (ErrorMsg e) ;; raise (SystemExit 1))
              | _ => None
              end).

(** The exit status of the interpreter: that of [sys.exit], 1 after an
    exception nobody caught, 0 when [main] returns. *)
Definition exit_status (r : Outcome unit) : nat :=
  match r with
  | Return _ => 0
  | Raise (SystemExit code) => code
  | Raise _ => 1
  end.

End Manager.

Import Py Manager.

(** * Vocabulary of the specification *)

Module Spec.

Section WithManager.

Variable self : DotfilesManager.

(** The target path a name resolves to, when the table knows the name. *)
Definition target_of (name : string) : option Path :=
  target <$> dict_get (config_mapping self) name.

(** Two places of a selection hold names that resolve to one target. *)
Definition collides (sel : list string) : Prop :=
  ∃ i j n1 n2 t,
    i ≠ j ∧ sel !! i = Some n1 ∧ sel !! j = Some n2 ∧
    target_of n1 = Some t ∧ target_of n2 = Some t.

(** The names grouped under a target. *)
Fixpoint group (t : Path) (d : list (Path * list string)) : list string :=
  match d with
  | [] => []
  | (t', names) :: d' => if decide (t' = t) then names else group t d'
  end.

(** The loop of [_check_duplicate_targets], from any dictionary. *)
Definition collect (d : list (Path * list string)) (names : list string) :=
  foldl (fun d name =>
           match dict_get (config_mapping self) name with
           | Some m => add_to_group (target m) name d
           | None => d
           end) d names.

End WithManager.

(** A computation that writes nothing and can only fail with an
    [OSError]. *)
Definition quiet {A} (m : M A) : Prop :=
  ∀ w w' r, m w = (w', r) →
    stdout w' = stdout w ∧ ∀ e, r = Raise e → ∃ en f g, e = OSError en f g.

(** The line that closes the handling of an entry: the warning for a
    missing source, the success message, or the error of a failed
    [symlink_to]. *)
Definition is_outcome (o : Output) : bool :=
  match o with
  | Log WARNING (SourceMissing _) => true
  | Log INFO (CreatedSymlink _ _) => true
  | Log ERROR (ErrorCreating _ _) => true
  | _ => false
  end.

(** [o] is such a line for the entry with this source and target. *)
Definition outcome_for (source target : Path) (o : Output) : Prop :=
  o = Log WARNING (SourceMissing source)
  ∨ o = Log INFO (CreatedSymlink target source)
  ∨ ∃ e, o = Log ERROR (ErrorCreating target e).

(** The closing line [o] is that of the entry called [name]. *)
Definition reports (self : DotfilesManager) (name : string) (o : Output) : Prop :=
  ∃ m, dict_get (config_mapping self) name = Some m
       ∧ outcome_for (source m) (target m) o.

(** The entry called [name] is in place: its source exists, and its
    target is a working symlink to the source, in a directory. *)
Definition linked (self : DotfilesManager) (fs : Fs.t) (name : string) : Prop :=
  ∃ m, dict_get (config_mapping self) name = Some m
       ∧ Fs.exists_ fs (source m) = true
       ∧ Fs.exists_ fs (target m) = true
       ∧ fs !! target m = Some (Fs.Symlink (source m))
       ∧ fs !! parent (target m) = Some Fs.Dir.

(** What linking anew does for each entry: the link removed, then made
    again. *)
Definition relink_calls (self : DotfilesManager) (sel : list string) : list Syscall :=
  flat_map (fun name =>
              match dict_get (config_mapping self) name with
              | Some m => [SysUnlink (target m); SysSymlink (source m) (target m)]
              | None => []
              end) sel.

(** The lines a run that links every entry anew writes. *)
Definition relink_lines (self : DotfilesManager) (sel : list string) : list Output :=
  flat_map (fun name =>
              match dict_get (config_mapping self) name with
              | Some m => [Log INFO (CreatedSymlink (target m) (source m))]
              | None => []
              end) sel.

(** The table knows [name], and its target has a last component. *)
Definition named (self : DotfilesManager) (name : string) : Prop :=
  ∃ m, dict_get (config_mapping self) name = Some m ∧ Pathlib.name (target m) ≠ "".

(** The path the claim names for the backup: the target with
    [.backup] appended to its last component. *)
Definition appended_backup (target : Path) : Path :=
  mkPath (root target)
         (removelast (parts target) ++ [(name target ++ ".backup")%string]).

(** The names of a selection in the order of the mapping table. *)
Definition table_order (self : DotfilesManager) (sel : list string) : list string :=
  filter (fun name => name ∈ sel) (keys (config_mapping self)).

(** [get_default_config_dir] without its warning. *)
Definition default_config_dir (h : Host) : Path :=
  let system := Str.lower (platform_system h) in
  if String.eqb system "darwin"
  then Path_home h </> "Library" </> "Application Support"
  else Path_home h </> ".config".

(** The manager [main] builds on a host. *)
Definition manager_of (h : Host) (script_dir : Path) : DotfilesManager :=
  let config_dir := Path_of (getenv h "CONFIG_DIR" (str (default_config_dir h))) in
  mkManager script_dir (Path_home h) config_dir
            (_load_config_mapping script_dir (Path_home h) config_dir).

(** The set [main] makes of [--exclude]. *)
Definition exclude_of (args : Args) : gset string :=
  match given (args_exclude args) with
  | Some e => list_to_set (Str.split "," e)
  | None => ∅
  end.

(** The selection an invocation asks for; [None] when it has neither
    [--all] nor a non-empty [--limit]. *)
Definition requested (self : DotfilesManager) (args : Args) : option (list string) :=
  if args_all args then Some (selection_all self (exclude_of args))
  else
    match given (args_limit args) with
    | Some l =>
        Some (selection_specific self (Str.strip <$> Str.split "," l) (exclude_of args))
    | None => None
    end.

(** A component as the parser of paths keeps them: not empty, not
    [.], without a separator. *)
Definition normal_part (x : string) : Prop :=
  Is_true (keep_part x) ∧ Str.contains "/" x = false.

(** The string does not begin with a separator. *)
Definition head_not_slash (s : string) : Prop :=
  match s with
  | String a _ => a ≠ "/"%char
  | EmptyString => True
  end.

(** [q] is [p] or a directory above it. *)
Definition above_or_self (q p : Path) : Prop :=
  root q = root p ∧ parts q `prefix_of` parts p.

(** The filesystem with the directories [ds] made, one after the
    other. *)
Definition with_dirs (fs : Fs.t) (ds : list Path) : Fs.t :=
  foldl (fun fs d => <[d := Fs.Dir]> fs) fs ds.

(** From [w] to [w'] the directories [made] were made and nothing else
    was done: each is [p] or above it and did not exist in [w]. *)
Definition makes_dirs (p : Path) (w w' : World) (made : list Path) : Prop :=
  stdout w' = stdout w
  ∧ performed w' = (performed w ++ (SysMkdir <$> made))%list
  ∧ files w' = with_dirs (files w) made
  ∧ Forall (fun q => above_or_self q p ∧ files w !! q = None) made.

(** What [__init__] writes: the warning of [get_default_config_dir] on
    a platform that is neither macOS nor Linux. *)
Definition startup_lines (h : Host) : list Output :=
  let system := Str.lower (platform_system h) in
  if String.eqb system "darwin" then []
  else if String.eqb system "linux" then []
  else [Log WARNING (UnsupportedPlatform system)].

(** The system call [c] is one the entry [m] can ask for: a directory
    made above its target, its target unlinked, its target renamed to the
    backup path, or its target linked to its source. *)
Definition belongs (m : Mapping) (c : Syscall) : Prop :=
  match c with
  | SysMkdir q => above_or_self q (parent (target m))
  | SysUnlink q => q = target m
  | SysRename old new =>
      old = target m ∧ Pathlib.with_suffix (target m) ".backup" = inr new
  | SysSymlink referent q => referent = source m ∧ q = target m
  end.

(** The system call [c] is one of an entry of the table whose name
    satisfies [P]. *)
Definition call_of (self : DotfilesManager) (P : string → Prop) (c : Syscall) : Prop :=
  ∃ n m, P n ∧ dict_get (config_mapping self) n = Some m ∧ belongs m c.

(** The entries of [sel] are handled one after the other, from [w]:
    [_create_symlink] runs on the first entry in [w], on each other entry
    in the world the entry before it left, and the run ends in [w'] with
    [r], after the last entry or at the first entry that raises. *)
Fixpoint one_by_one (self : DotfilesManager) (sel : list string)
    (w w' : World) (r : Outcome unit) : Prop :=
  match sel with
  | [] => w' = w ∧ r = Return tt
  | n :: rest =>
      ∃ m w1 r1,
        dict_get (config_mapping self) n = Some m
        ∧ _create_symlink (source m) (target m) w = (w1, r1)
        ∧ match r1 with
          | Return _ => one_by_one self rest w1 w' r
          | Raise e => w' = w1 ∧ r = Raise e
          end
  end.

(** The system calls [calls] are all of the entry called [n]. *)
Definition calls_of (self : DotfilesManager) (n : string) (calls : list Syscall) : Prop :=
  ∃ m, dict_get (config_mapping self) n = Some m ∧ Forall (belongs m) calls.

(** The directories on the way from [base] down to [base/extra], the
    highest first: [base/x1], [base/x1/x2], ... *)
Definition descent (r : Root) (base extra : list string) : list Path :=
  (fun k => mkPath r (base ++ take k extra)%list) <$> seq 1 (length extra).

End Spec.

Import Spec.

(** * Sample machines *)

Module Sample.

(** A Linux host, the home directory [/home/u], no [CONFIG_DIR]. *)
Definition host : Host := mkHost "Linux" "/home/u" ∅.

(** The script lives in [/d]. *)
Definition script_dir : Path := Path_of "/d".

Definition manager : DotfilesManager := manager_of host script_dir.

(** A machine on which [~/tmux/tmux.conf] is a file of the user's, and
    the dotfiles directory holds a tmux and a git configuration. *)
Definition tree : Fs.t :=
  list_to_map
    [ (Path_of "/", Fs.Dir);
      (Path_of "/home", Fs.Dir);
      (Path_of "/home/u", Fs.Dir);
      (Path_of "/home/u/tmux", Fs.Dir);
      (Path_of "/home/u/tmux/tmux.conf", Fs.File "old");
      (Path_of "/d", Fs.Dir);
      (Path_of "/d/tmux", Fs.Dir);
      (Path_of "/d/tmux/tmux.conf", Fs.File "new");
      (Path_of "/d/git", Fs.Dir);
      (Path_of "/d/git/config", Fs.File "[user]") ].

(** The same machine with [~/.git] a regular file, as in a home
    directory that is a git worktree. *)
Definition tree_git_file : Fs.t :=
  <[Path_of "/home/u/.git" := Fs.File "gitdir: /srv/home.git"]> tree.

(** The same machine with [~/.git/config] a link to a file that is
    gone. *)
Definition tree_dangling : Fs.t :=
  <[Path_of "/home/u/.git/config" := Fs.Symlink (Path_of "/gone")]>
    (<[Path_of "/home/u/.git" := Fs.Dir]> tree).

(** The same machine with a directory where the backup of
    [~/tmux/tmux.conf] would go. *)
Definition tree_backup_dir : Fs.t :=
  <[Path_of "/home/u/tmux/tmux.backup" := Fs.Dir]> tree.

(** The same machine with [~/tmux/tmux.conf] a link to a file kept
    elsewhere. *)
Definition tree_foreign_link : Fs.t :=
  <[Path_of "/home/u/tmux/tmux.conf" := Fs.Symlink (Path_of "/d/git/config")]> tree.

Definition world (fs : Fs.t) : World := mkWorld fs [] [].

(** The machine after [--limit git,tmux] ran once on [tree]. *)
Definition after_first_run : World :=
  (symlink_specific manager ["git"; "tmux"] None (world tree)).1.

End Sample.

(** * Properties *)

Open Scope list_scope.
Open Scope nat_scope.

(** ** Running a computation *)

Lemma run_bind {A B} (m : M A) (k : A -> M B) (w : World) :
  (m ≫= k) w = match m w with
               | (w', Return a) => k a w'
               | (w', Raise e) => (w', Raise e)
               end.
Proof. reflexivity. Qed.

Lemma run_ret {A} (a : A) (w : World) : ret a w = (w, Return a).
Proof. reflexivity. Qed.

Lemma world_eta (w : World) : mkWorld (files w) (stdout w) (performed w) = w.
Proof. by destruct w. Qed.

(** ** Computations that do not write to the log *)

Lemma quiet_ask {A} (f : Fs.t → A) : quiet (ask f).
Proof. intros w w' r [= <- <-]. split; [done|]. intros e [=]. Qed.

Lemma quiet_ret {A} (a : A) : quiet (ret a).
Proof. intros w w' r [= <- <-]. split; [done|]. intros e [=]. Qed.

Lemma quiet_raise_os {A} en f g : quiet (@raise A (OSError en f g)).
Proof. intros w w' r [= <- <-]. split; [done|]. intros e [= <-]. eauto. Qed.

Lemma quiet_syscall call what f g : quiet (syscall call what f g).
Proof.
  intros w w' r. unfold syscall. destruct (call (files w)); intros [= <- <-]; simpl.
  - split; [done|]. intros e' [= <-]. eauto.
  - split; [done|]. intros e' [=].
Qed.

Lemma quiet_bind {A B} (m : M A) (k : A → M B) :
  quiet m → (∀ a, quiet (k a)) → quiet (m ≫= k).
Proof.
  intros Hm Hk w w' r. rewrite run_bind.
  destruct (m w) as [w1 [a|e]] eqn:E; destruct (Hm _ _ _ E) as [Ho He].
  - intros Hk'. destruct (Hk _ _ _ _ Hk') as [Ho' He']. split; [congruence|done].
  - intros [= <- <-]. split; [done|]. intros e' [= <-]. by apply He.
Qed.

Lemma quiet_try {A} (m : M A) (h : exn → option (M A)) :
  quiet m → (∀ e k, h e = Some k → quiet k) → quiet (try_except m h).
Proof.
  intros Hm Hh w w' r. unfold try_except.
  destruct (m w) as [w1 [a|e]] eqn:E; destruct (Hm _ _ _ E) as [Ho He].
  - intros [= <- <-]. split; [done|]. intros e' [=].
  - destruct (h e) as [k|] eqn:Hk.
    + intros Hk'. destruct (Hh _ _ Hk _ _ _ Hk') as [Ho' He']. split; [congruence|done].
    + intros [= <- <-]. split; [done|]. intros e' [= <-]. by apply He.
Qed.

Lemma quiet_unless_is_dir p en f g : quiet (unless_is_dir p (OSError en f g)).
Proof.
  apply quiet_bind; [apply quiet_ask|]. intros []; [apply quiet_ret|apply quiet_raise_os].
Qed.

Lemma quiet_mkdir_exist_ok p : quiet (mkdir_exist_ok p).
Proof.
  apply quiet_try; [apply quiet_syscall|].
  intros [| |en f g|] k; try done. destruct en; intros [= <-]; apply quiet_unless_is_dir.
Qed.

Lemma mkdir_parents_from_eq r rparts :
  mkdir_parents_from r rparts
  = let self := mkPath r (rev rparts) in
    try_except (os_mkdir self)
      (fun e => match e with
                | OSError Fs.ENOENT _ _ =>
                    match rparts with
                    | [] => None
                    | _ :: up => Some (mkdir_parents_from r up ;; mkdir_exist_ok self)
                    end
                | OSError _ _ _ => Some (unless_is_dir self e)
                | _ => None
                end).
Proof. by destruct rparts. Qed.

Lemma quiet_mkdir_parents_from r rparts : quiet (mkdir_parents_from r rparts).
Proof.
  induction rparts as [|x up IH]; rewrite mkdir_parents_from_eq; cbv zeta;
    (apply quiet_try; [apply quiet_syscall|]);
    intros [| |en f g|] k; try done; destruct en; try done; intros [= <-];
    try apply quiet_unless_is_dir.
  apply quiet_bind; [done|]. intros _. apply quiet_mkdir_exist_ok.
Qed.

Lemma quiet_mkdir_parents p : quiet (mkdir_parents p).
Proof. apply quiet_mkdir_parents_from. Qed.

(** ** Collision validation *)

Section Collisions.

Variable self : DotfilesManager.

Lemma group_add_to_group t t' n d :
  group t' (add_to_group t n d)
  = if decide (t = t') then (group t d ++ [n])%list else group t' d.
Proof.
  induction d as [|[t0 names] d IH]; simpl.
  - repeat case_decide; congruence.
  - destruct (decide (t0 = t)) as [->|Hne]; simpl.
    + repeat case_decide; congruence.
    + rewrite IH. repeat case_decide; congruence.
Qed.

Lemma group_collect t names : ∀ d,
  group t (collect self d names)
  = (group t d ++ filter (fun n => target_of self n = Some t) names)%list.
Proof.
  induction names as [|n names IH]; intros d; simpl.
  - by rewrite app_nil_r.
  - unfold collect in *. simpl. rewrite IH, filter_cons.
    assert (target_of self n = target <$> dict_get (config_mapping self) n) as Ht by done.
    destruct (dict_get (config_mapping self) n) as [m|]; simpl in Ht.
    + rewrite group_add_to_group.
      destruct (decide (target m = t)) as [Heq|Hne].
      * rewrite decide_True by congruence. rewrite <- app_assoc, Heq. done.
      * rewrite decide_False by congruence. done.
    + by rewrite decide_False by congruence.
Qed.

Lemma group_elem t d : group t d ≠ [] → (t, group t d) ∈ d.
Proof.
  induction d as [|[t0 names] d IH]; simpl; [done|].
  destruct (decide (t0 = t)) as [->|Hne]; intros H.
  - left.
  - right. by apply IH.
Qed.

Lemma filter_length_cons {A} (P : A → Prop) `{∀ x, Decision (P x)} a (l : list A) :
  length (filter P l) ≤ length (filter P (a :: l)).
Proof. rewrite filter_cons. case_decide; simpl; lia. Qed.

Lemma two_hits {A} (P : A → Prop) `{∀ x, Decision (P x)} (l : list A) :
  ∀ i j x y, i < j → l !! i = Some x → l !! j = Some y → P x → P y →
             2 ≤ length (filter P l).
Proof.
  induction l as [|a l IH]; intros i j x y Hij Hi Hj Px Py; [done|].
  destruct i as [|i].
  - simpl in Hi. injection Hi as ->.
    destruct j as [|j]; [lia|]. simpl in Hj.
    rewrite filter_cons, decide_True by done. simpl.
    assert (y ∈ filter P l) as Hy.
    { apply list_elem_of_filter. split; [done|]. by eapply list_elem_of_lookup_2. }
    destruct (filter P l); [by apply elem_of_nil in Hy|simpl; lia].
  - destruct j as [|j]; [lia|]. simpl in Hi, Hj.
    etrans; [|apply filter_length_cons].
    eapply (IH i j); eauto with lia.
Qed.

Lemma collides_duplicates sel : collides self sel → duplicates self sel ≠ [].
Proof.
  intros (i & j & n1 & n2 & t & Hij & Hi & Hj & H1 & H2).
  assert (2 ≤ length (filter (fun n => target_of self n = Some t) sel)) as Hlen.
  { destruct (decide (i < j)).
    - by eapply (two_hits _ sel i j n1 n2).
    - eapply (two_hits _ sel j i n2 n1); eauto with lia. }
  assert (group t (collect self [] sel) = filter (fun n => target_of self n = Some t) sel) as Hg
    by apply (group_collect t sel []).
  assert ((t, group t (collect self [] sel)) ∈ duplicates self sel) as Hin.
  { unfold duplicates. change (target_to_dotfiles self sel) with (collect self [] sel).
    apply list_elem_of_filter. split.
    - cbv beta. change ((t, group t (collect self [] sel)).2) with (group t (collect self [] sel)).
      rewrite Hg. lia.
    - apply group_elem. rewrite Hg. intros Heq. rewrite Heq in Hlen. simpl in Hlen. lia. }
  intros Heq. rewrite Heq in Hin. by apply elem_of_nil in Hin.
Qed.

(** When no group has two names the check returns and changes nothing. *)
Lemma check_passes sel w :
  duplicates self sel = [] → _check_duplicate_targets self sel w = (w, Return tt).
Proof. intros H. unfold _check_duplicate_targets. by rewrite H. Qed.

Lemma check_fails sel w :
  duplicates self sel ≠ [] →
  _check_duplicate_targets self sel w
  = (w, Raise (ValueError (error_msg (duplicates self sel)))).
Proof.
  intros H. unfold _check_duplicate_targets.
  by destruct (duplicates self sel).
Qed.

(** Both entry points stop at a failed check, the world as it was. *)
Lemma symlink_all_collision exclude w :
  duplicates self (selection_all self (or_empty exclude)) ≠ [] →
  symlink_all self exclude w
  = (w, Raise (ValueError
                 (error_msg (duplicates self (selection_all self (or_empty exclude)))))).
Proof.
  intros H. unfold symlink_all. rewrite run_bind, check_fails by done. done.
Qed.

Lemma symlink_specific_collision dotfiles exclude w :
  duplicates self (selection_specific self dotfiles (or_empty exclude)) ≠ [] →
  symlink_specific self dotfiles exclude w
  = (w, Raise (ValueError
                 (error_msg (duplicates self
                               (selection_specific self dotfiles (or_empty exclude)))))).
Proof.
  intros H. unfold symlink_specific. rewrite run_bind, check_fails by done. done.
Qed.

End Collisions.

(** ** The filesystem calls of one entry *)

Lemma path_eta (p : Path) : mkPath (root p) (parts p) = p.
Proof. by destruct p. Qed.

Lemma stat_lookup_dir (fs : Fs.t) p : fs !! p = Some Fs.Dir → Fs.stat fs p = inr Fs.Dir.
Proof. intros H. unfold Fs.stat. simpl. by rewrite H. Qed.

Lemma is_dir_lookup (fs : Fs.t) p : Fs.is_dir fs p = true → is_Some (fs !! p).
Proof.
  unfold Fs.is_dir, Fs.stat. simpl. destruct (fs !! p); [eauto|done].
Qed.

Lemma is_dir_of_lookup (fs : Fs.t) p : fs !! p = Some Fs.Dir → Fs.is_dir fs p = true.
Proof. intros H. unfold Fs.is_dir. by rewrite (stat_lookup_dir _ _ H). Qed.

Lemma mkdir_parents_is_dir p w :
  Fs.is_dir (files w) p = true → mkdir_parents p w = (w, Return tt).
Proof.
  intros Hd. destruct (is_dir_lookup _ _ Hd) as [nd Hnd].
  unfold mkdir_parents. rewrite mkdir_parents_from_eq. cbv zeta.
  rewrite rev_involutive, path_eta.
  unfold try_except, os_mkdir, syscall, Fs.mkdir. rewrite Hnd.
  unfold unless_is_dir. rewrite run_bind. unfold is_dir, ask. by rewrite Hd.
Qed.

(** The parent of a path that has a name is another path. *)
Lemma parent_neq (fs : Fs.t) p nd :
  fs !! p = Some nd → nd ≠ Fs.Dir → fs !! parent p = Some Fs.Dir → parent p ≠ p.
Proof. intros H1 H2 H3 Heq. rewrite Heq in H3. congruence. Qed.

Lemma create_symlink_source_missing s t w :
  Fs.exists_ (files w) s = false →
  _create_symlink s t w
  = (mkWorld (files w) (stdout w ++ [Log WARNING (SourceMissing s)]) (performed w),
     Return tt).
Proof.
  intros Hs. unfold _create_symlink. rewrite run_bind. unfold exists_ at 1, ask.
  by rewrite Hs.
Qed.

Lemma create_symlink_relink s t w :
  Fs.exists_ (files w) s = true →
  Fs.exists_ (files w) t = true →
  files w !! t = Some (Fs.Symlink s) →
  files w !! parent t = Some Fs.Dir →
  _create_symlink s t w
  = (mkWorld (files w) (stdout w ++ [Log INFO (CreatedSymlink t s)])
             (performed w ++ [SysUnlink t; SysSymlink s t]),
     Return tt).
Proof.
  intros Hs Ht Hl Hp.
  assert (parent t ≠ t) as Hne by (eapply parent_neq; eauto; done).
  unfold _create_symlink. rewrite run_bind. unfold exists_ at 1, ask. rewrite Hs. simpl.
  rewrite run_bind, mkdir_parents_is_dir by by apply is_dir_of_lookup.
  rewrite run_bind. unfold exists_, ask. rewrite Ht.
  rewrite run_bind. rewrite run_bind. unfold is_symlink, ask, Fs.is_symlink, Fs.lstat.
  rewrite Hl. unfold unlink, syscall, Fs.unlink. rewrite Hl. simpl.
  unfold try_except. rewrite run_bind. unfold symlink_to, syscall, Fs.symlink. simpl.
  rewrite lookup_delete_eq. unfold Fs.dir_for.
  rewrite (stat_lookup_dir _ (parent t)) by by rewrite lookup_delete_ne.
  simpl. unfold logger.info, emit. simpl.
  rewrite insert_delete_eq, insert_id by done.
  by rewrite <- app_assoc.
Qed.

(** What [with_suffix] returns keeps the root and the directory. *)
Lemma with_suffix_inr p sfx q :
  Pathlib.with_suffix p sfx = inr q →
  ∃ nm, q = mkPath (root p) (removelast (parts p) ++ [nm]) ∧ name p ≠ "".
Proof.
  unfold Pathlib.with_suffix.
  destruct (Str.contains "/" sfx); [done|].
  destruct (_ || _); [done|].
  destruct (name p) eqn:Hn; [done|]. simpl.
  intros [= <-]. eexists. split; [reflexivity|done].
Qed.

Lemma with_suffix_parent p sfx q :
  Pathlib.with_suffix p sfx = inr q → parent q = parent p.
Proof.
  intros H. destruct (with_suffix_inr _ _ _ H) as (nm & -> & _).
  unfold parent. simpl. by rewrite removelast_last.
Qed.

Lemma with_suffix_has_parts p sfx q :
  Pathlib.with_suffix p sfx = inr q → parent q ≠ q.
Proof.
  intros H. destruct (with_suffix_inr _ _ _ H) as (nm & -> & _).
  unfold parent. simpl. rewrite removelast_last. intros [= Heq].
  apply (f_equal length) in Heq. rewrite length_app in Heq. simpl in Heq. lia.
Qed.

Lemma with_suffix_inl p :
  ∀ e, Pathlib.with_suffix p ".backup" = inl e → name p = "".
Proof.
  intros e. unfold Pathlib.with_suffix. simpl.
  destruct (name p); [done|]. done.
Qed.

Lemma run_syscall_ok call what f g w fs' :
  call (files w) = inr fs' →
  syscall call what f g w
  = (mkWorld fs' (stdout w) (performed w ++ [what]), Return tt).
Proof. intros H. unfold syscall. by rewrite H. Qed.

Lemma run_syscall_err call what f g w e :
  call (files w) = inl e →
  syscall call what f g w = (w, Raise (OSError e f g)).
Proof. intros H. unfold syscall. by rewrite H. Qed.

Lemma run_info msg w :
  logger.info msg w = (mkWorld (files w) (stdout w ++ [Log INFO msg]) (performed w), Return tt).
Proof. done. Qed.

Lemma fs_rename_file (fs : Fs.t) t b c :
  fs !! t = Some (Fs.File c) →
  fs !! parent b = Some Fs.Dir →
  b ≠ t →
  fs !! b ≠ Some Fs.Dir →
  Fs.rename fs t b = inr (<[b := Fs.File c]> (delete t fs)).
Proof.
  intros Ht Hp Hne Hb. unfold Fs.rename, Fs.dir_for.
  rewrite Ht, (stat_lookup_dir _ _ Hp), bool_decide_eq_false_2 by congruence.
  destruct (fs !! b) as [[]|]; congruence.
Qed.

Lemma fs_symlink_new (fs : Fs.t) s t :
  fs !! t = None →
  fs !! parent t = Some Fs.Dir →
  Fs.symlink fs s t = inr (<[t := Fs.Symlink s]> fs).
Proof.
  intros Ht Hp. unfold Fs.symlink, Fs.dir_for.
  by rewrite Ht, (stat_lookup_dir _ _ Hp).
Qed.

Lemma fs_symlink_exists (fs : Fs.t) s t :
  is_Some (fs !! t) → Fs.symlink fs s t = inl Fs.EEXIST.
Proof. intros [nd H]. unfold Fs.symlink. by rewrite H. Qed.

Lemma exists_of_file (fs : Fs.t) t c : fs !! t = Some (Fs.File c) → Fs.exists_ fs t = true.
Proof. intros H. unfold Fs.exists_, Fs.stat. simpl. by rewrite H. Qed.

Lemma create_symlink_backup s t c b w :
  Fs.exists_ (files w) s = true →
  files w !! t = Some (Fs.File c) →
  files w !! parent t = Some Fs.Dir →
  Pathlib.with_suffix t ".backup" = inr b →
  b ≠ t →
  files w !! b ≠ Some Fs.Dir →
  _create_symlink s t w
  = (mkWorld (<[t := Fs.Symlink s]> (<[b := Fs.File c]> (delete t (files w))))
             (stdout w ++ [Log INFO (BackingUp t b); Log INFO (CreatedSymlink t s)])
             (performed w ++ [SysRename t b; SysSymlink s t]),
     Return tt).
Proof.
  intros Hs Ht Hp Hb Hne Hnd.
  assert (parent t ≠ t) as Hpt by (eapply parent_neq; eauto; done).
  assert (parent t ≠ b) as Hpb.
  { rewrite <- (with_suffix_parent _ _ _ Hb). by eapply with_suffix_has_parts. }
  unfold _create_symlink. rewrite run_bind. unfold exists_ at 1, ask. rewrite Hs. simpl.
  rewrite run_bind, mkdir_parents_is_dir by by apply is_dir_of_lookup.
  rewrite run_bind. unfold exists_, ask. rewrite (exists_of_file _ _ _ Ht).
  rewrite run_bind. rewrite run_bind. unfold is_symlink, ask, Fs.is_symlink, Fs.lstat.
  rewrite Ht. rewrite run_bind. unfold with_suffix. rewrite Hb.
  rewrite run_ret, run_bind, run_info.
  unfold rename. erewrite run_syscall_ok; cycle 1.
  { simpl. apply fs_rename_file; eauto. by rewrite (with_suffix_parent _ _ _ Hb). }
  unfold try_except. rewrite run_bind.
  unfold symlink_to. erewrite run_syscall_ok; cycle 1.
  { simpl. apply fs_symlink_new.
    - by rewrite lookup_insert_ne, lookup_delete_eq.
    - by rewrite lookup_insert_ne, lookup_delete_ne. }
  rewrite run_info. simpl. by rewrite <- !app_assoc.
Qed.

Lemma create_symlink_dangling s t w :
  Fs.exists_ (files w) s = true →
  Fs.is_symlink (files w) t = true →
  Fs.exists_ (files w) t = false →
  Fs.is_dir (files w) (parent t) = true →
  _create_symlink s t w
  = (mkWorld (files w)
             (stdout w ++ [Log ERROR (ErrorCreating t (OSError Fs.EEXIST s (Some t)))])
             (performed w),
     Return tt).
Proof.
  intros Hs Hl Ht Hp.
  unfold _create_symlink. rewrite run_bind. unfold exists_ at 1, ask. rewrite Hs. simpl.
  rewrite run_bind, mkdir_parents_is_dir by done.
  rewrite run_bind. unfold exists_, ask. rewrite Ht.
  rewrite run_bind. simpl.
  unfold try_except. rewrite run_bind.
  unfold symlink_to, syscall, Fs.symlink.
  unfold Fs.is_symlink, Fs.lstat in Hl.
  destruct (files w !! t) as [nd|]; [|done]. simpl. done.
Qed.

(** ** What one entry writes and how it can fail *)

(** [symlink_to] and its handler: this step always returns, having written
    the line that closes the entry. *)
Lemma link_step s t w w' r :
  try_except
    (symlink_to t s ;; logger.info (CreatedSymlink t s))
    (fun e => if is_Exception e
              then Some (logger.error (ErrorCreating t e))
              else None) w = (w', r) →
  r = Return tt ∧
  ∃ o, stdout w' = stdout w ++ [o] ∧ is_outcome o = true ∧ outcome_for s t o.
Proof.
  unfold try_except. rewrite run_bind. unfold symlink_to, syscall.
  destruct (Fs.symlink (files w) s t) as [e|fs']; simpl; intros [= <- <-]; simpl.
  - split; [done|]. eexists. split; [done|]. split; [done|]. right. right. eauto.
  - split; [done|]. eexists. split; [done|]. split; [done|]. right. left. done.
Qed.

Lemma create_symlink_reports s t w w' r :
  _create_symlink s t w = (w', r) →
  ∃ out, stdout w' = stdout w ++ out ∧
    match r with
    | Return _ =>
        ∃ o, filter (fun o => is_outcome o) out = [o] ∧ outcome_for s t o
    | Raise e =>
        filter (fun o => is_outcome o) out = []
        ∧ ((∃ en f g, e = OSError en f g) ∨ name t = "")
    end.
Proof.
  intros H. unfold _create_symlink in H. rewrite run_bind in H.
  unfold exists_ at 1, ask in H.
  destruct (Fs.exists_ (files w) s) eqn:Hs; simpl in H.
  2: { injection H as <- <-. eexists. split; [done|]. eexists. split; [done|]. by left. }
  rewrite run_bind in H.
  destruct (mkdir_parents (parent t) w) as [w1 [[]|e]] eqn:E1;
    destruct (quiet_mkdir_parents _ _ _ _ E1) as [Ho1 He1].
  2: { injection H as <- <-. exists []. rewrite app_nil_r. split; [done|].
       split; [done|]. left. by apply He1. }
  rewrite run_bind in H. unfold exists_, ask in H. rewrite run_bind in H.
  destruct (Fs.exists_ (files w1) t) eqn:Ht.
  2: { rewrite run_ret in H. apply link_step in H as (-> & o & Ho & Hio & Hof).
       exists [o]. split; [congruence|]. exists o. split; [|done].
       rewrite filter_cons, decide_True by by rewrite Hio. done. }
  rewrite run_bind in H. unfold is_symlink, ask in H.
  destruct (Fs.is_symlink (files w1) t) eqn:Hl.
  - destruct (unlink t w1) as [w2 [[]|e]] eqn:E2;
      destruct (quiet_syscall _ _ _ _ _ _ _ E2) as [Ho2 He2].
    + apply link_step in H as (-> & o & Ho & Hio & Hof).
      exists [o]. split; [congruence|]. exists o. split; [|done].
      rewrite filter_cons, decide_True by by rewrite Hio. done.
    + injection H as <- <-. exists []. rewrite app_nil_r. split; [congruence|].
      split; [done|]. left. by apply He2.
  - rewrite run_bind in H. unfold with_suffix in H.
    destruct (Pathlib.with_suffix t ".backup") as [err|b] eqn:Hb.
    + exists []. rewrite app_nil_r.
      destruct err; injection H as <- <-; (split; [done|]); (split; [done|]);
        right; by eapply with_suffix_inl.
    + rewrite run_ret, run_bind, run_info in H.
      destruct (rename t b _) as [w2 [[]|e]] eqn:E2;
        destruct (quiet_syscall _ _ _ _ _ _ _ E2) as [Ho2 He2]; simpl in Ho2.
      * apply link_step in H as (-> & o & Ho & Hio & Hof).
        exists [Log INFO (BackingUp t b); o]. split.
        { rewrite Ho, Ho2, Ho1. by rewrite <- app_assoc. }
        exists o. split; [|done].
        rewrite filter_cons, decide_False by (simpl; tauto).
        rewrite filter_cons, decide_True by by rewrite Hio. done.
      * injection H as <- <-. exists [Log INFO (BackingUp t b)].
        split; [congruence|]. split; [done|]. left. by apply He2.
Qed.

(** ** The loop over the selection *)

Lemma link_each_nil self w : link_each self [] w = (w, Return tt).
Proof. done. Qed.

Lemma link_each_cons self n rest w :
  link_each self (n :: rest) w
  = match dict_get (config_mapping self) n with
    | Some m =>
        match _create_symlink (source m) (target m) w with
        | (w1, Return _) => link_each self rest w1
        | (w1, Raise e) => (w1, Raise e)
        end
    | None => (w, Raise (KeyError n))
    end.
Proof.
  unfold link_each. simpl. unfold bind at 1. rewrite run_bind. unfold getitem.
  destruct (dict_get (config_mapping self) n) as [m|]; [|done].
  rewrite run_ret. done.
Qed.

Lemma link_each_reports self sel : ∀ w w' r,
  link_each self sel w = (w', r) →
  ∃ out done_,
    stdout w' = stdout w ++ out
    ∧ done_ `prefix_of` sel
    ∧ Forall2 (reports self) done_ (filter (fun o => is_outcome o) out)
    ∧ (r = Return tt → done_ = sel).
Proof.
  induction sel as [|n rest IH]; intros w w' r.
  - intros [= <- <-]. exists [], []. rewrite app_nil_r. by repeat split.
  - rewrite link_each_cons.
    destruct (dict_get (config_mapping self) n) as [m|] eqn:Hm.
    2: { intros [= <- <-]. exists [], []. rewrite app_nil_r.
         repeat split; [apply prefix_nil|constructor|done]. }
    destruct (_create_symlink (source m) (target m) w) as [w1 [[]|e]] eqn:E1;
      destruct (create_symlink_reports _ _ _ _ _ E1) as (out1 & Ho1 & Hr1).
    + destruct Hr1 as (o & Hf & Hof). intros H.
      destruct (IH _ _ _ H) as (out2 & done2 & Ho2 & Hpre & Hall & Hret).
      exists (out1 ++ out2), (n :: done2). repeat split.
      * by rewrite Ho2, Ho1, app_assoc.
      * by apply prefix_cons.
      * rewrite filter_app, Hf. simpl. constructor; [|done]. by exists m.
      * intros Hr. by rewrite Hret.
    + destruct Hr1 as [Hf _]. intros [= <- <-]. exists out1, [].
      repeat split; [done|apply prefix_nil|rewrite Hf; constructor|done].
Qed.

Lemma link_each_relink self sel : ∀ w,
  Forall (linked self (files w)) sel →
  link_each self sel w
  = (mkWorld (files w) (stdout w ++ relink_lines self sel)
             (performed w ++ relink_calls self sel),
     Return tt).
Proof.
  induction sel as [|n rest IH]; intros w Hall.
  - rewrite link_each_nil. unfold relink_lines, relink_calls. simpl.
    by rewrite !app_nil_r, world_eta.
  - apply Forall_cons in Hall as [(m & Hm & Hs & Ht & Hl & Hp) Hall].
    rewrite link_each_cons, Hm, (create_symlink_relink _ _ _ Hs Ht Hl Hp).
    rewrite IH by done. unfold relink_lines, relink_calls. simpl. rewrite Hm.
    by rewrite <- !app_assoc.
Qed.

Lemma link_each_raises self sel : ∀ w w' e,
  Forall (named self) sel →
  link_each self sel w = (w', Raise e) →
  ∃ en f g, e = OSError en f g.
Proof.
  induction sel as [|n rest IH]; intros w w' e Hall; [done|].
  apply Forall_cons in Hall as [(m & Hm & Hnm) Hall].
  rewrite link_each_cons, Hm.
  destruct (_create_symlink (source m) (target m) w) as [w1 [[]|e1]] eqn:E1.
  - by apply IH.
  - intros [= <- <-].
    destruct (create_symlink_reports _ _ _ _ _ E1) as (out1 & _ & _ & [H|H]); done.
Qed.

(** * The claims of the specification *)

(** ** Dictionaries *)

Lemma dict_in_get {V} (d : dict V) key :
  dict_in key d = true ↔ is_Some (dict_get d key).
Proof.
  unfold dict_in. destruct (dict_get d key); split; eauto; try done.
Qed.

Lemma dict_get_keys {V} (d : dict V) key :
  key ∈ keys d → is_Some (dict_get d key).
Proof.
  unfold keys. induction d as [|[k v] d IH]; simpl.
  - by intros ?%elem_of_nil.
  - destruct (String.eqb_spec k key) as [->|Hne]; [eauto|].
    intros [?|?]%elem_of_cons; [congruence|by apply IH].
Qed.

Lemma dict_get_elem {V} (d : dict V) key v :
  dict_get d key = Some v → (key, v) ∈ d.
Proof.
  induction d as [|[k v'] d IH]; simpl; [done|].
  destruct (String.eqb_spec k key) as [->|Hne].
  - intros [= ->]. left.
  - intros H. right. by apply IH.
Qed.

(** Two different names of a selection with one target collide. *)
Lemma collides_of_elems self sel n1 n2 t :
  n1 ≠ n2 → n1 ∈ sel → n2 ∈ sel →
  target_of self n1 = Some t → target_of self n2 = Some t →
  collides self sel.
Proof.
  intros Hne [i Hi]%list_elem_of_lookup_1 [j Hj]%list_elem_of_lookup_1 H1 H2.
  exists i, j, n1, n2, t. repeat split; try done. intros ->. congruence.
Qed.

(** ** C1 *)

(** C1.  When two places of the selection hold names whose entries have
    the same target, the check raises the [ValueError] that lists the
    groups, and [symlink_all] and [symlink_specific] stop there: the
    world they return is the one they were given, with the same files, no
    system call performed and nothing written. *)
Theorem collision_aborts_before_any_mutation
    (self : DotfilesManager) (sel : list string) (w : World) :
  collides self sel →
  let failure := Raise (ValueError (error_msg (duplicates self sel))) in
  _check_duplicate_targets self sel w = (w, failure)
  ∧ (∀ exclude, selection_all self (or_empty exclude) = sel →
                symlink_all self exclude w = (w, failure))
  ∧ (∀ dotfiles exclude,
        selection_specific self dotfiles (or_empty exclude) = sel →
        symlink_specific self dotfiles exclude w = (w, failure)).
Proof.
  intros Hc%collides_duplicates. cbv zeta. split; [|split].
  - by apply check_fails.
  - intros exclude <-. by apply symlink_all_collision.
  - intros dotfiles exclude <-. by apply symlink_specific_collision.
Qed.

Lemma collision_aborts_before_any_mutation_witness :
  collides Sample.manager (selection_all Sample.manager ∅)
  ∧ ∃ msg, symlink_all Sample.manager None (Sample.world Sample.tree)
           = (Sample.world Sample.tree, Raise (ValueError msg)).
Proof.
  assert (collides Sample.manager (selection_all Sample.manager ∅)) as Hc.
  { exists 6, 7, "nvim-plugins", "nvim-no-plugins", (Path_of "/home/u/.config/nvim").
    repeat split; try done. }
  split; [exact Hc|]. eexists.
  exact (proj1 (proj2 (collision_aborts_before_any_mutation
                         Sample.manager (selection_all Sample.manager ∅)
                         (Sample.world Sample.tree) Hc)) None eq_refl).
Defined.

(** ** C5 *)

(** C5.  In the table [_load_config_mapping] builds, whatever the three
    directories, ["nvim-plugins"] and ["nvim-no-plugins"] have the one
    target [config_dir / "nvim"].  So [symlink_all] with neither name
    excluded, and [symlink_specific] on a list that keeps both, raise the
    [ValueError] of the check and leave the world untouched. *)
Theorem default_table_nvim_collision (d h c : Path) (w : World) :
  let self := mkManager d h c (_load_config_mapping d h c) in
  target_of self "nvim-plugins" = Some (c </> "nvim")
  ∧ target_of self "nvim-no-plugins" = Some (c </> "nvim")
  ∧ (∀ exclude,
        "nvim-plugins" ∉ or_empty exclude →
        "nvim-no-plugins" ∉ or_empty exclude →
        ∃ msg, symlink_all self exclude w = (w, Raise (ValueError msg)))
  ∧ (∀ dotfiles exclude,
        "nvim-plugins" ∈ selection_specific self dotfiles (or_empty exclude) →
        "nvim-no-plugins" ∈ selection_specific self dotfiles (or_empty exclude) →
        ∃ msg, symlink_specific self dotfiles exclude w = (w, Raise (ValueError msg))).
Proof.
  intros self.
  assert (target_of self "nvim-plugins" = Some (c </> "nvim")) as H1 by done.
  assert (target_of self "nvim-no-plugins" = Some (c </> "nvim")) as H2 by done.
  split; [done|]. split; [done|]. split.
  - intros exclude Hn1 Hn2. eexists.
    apply symlink_all_collision, collides_duplicates.
    apply (collides_of_elems self _ "nvim-plugins" "nvim-no-plugins" (c </> "nvim"));
      try done.
    + apply list_elem_of_filter. split; [done|]. simpl. set_solver.
    + apply list_elem_of_filter. split; [done|]. simpl. set_solver.
  - intros dotfiles exclude Hn1 Hn2. eexists.
    apply symlink_specific_collision, collides_duplicates.
    by apply (collides_of_elems self _ "nvim-plugins" "nvim-no-plugins" (c </> "nvim")).
Qed.

Lemma default_table_nvim_collision_witness :
  ("nvim-plugins" ∉ or_empty (Some ({["git"]} : gset string)))
  ∧ ("nvim-no-plugins" ∉ or_empty (Some ({["git"]} : gset string)))
  ∧ ∃ msg, symlink_all Sample.manager (Some {["git"]}) (Sample.world Sample.tree)
           = (Sample.world Sample.tree, Raise (ValueError msg)).
Proof.
  assert ("nvim-plugins" ∉ or_empty (Some ({["git"]} : gset string))) as H1
    by (simpl; set_solver).
  assert ("nvim-no-plugins" ∉ or_empty (Some ({["git"]} : gset string))) as H2
    by (simpl; set_solver).
  split; [exact H1|]. split; [exact H2|].
  exact (proj1 (proj2 (proj2 (default_table_nvim_collision
                                Sample.script_dir (Path_of "/home/u")
                                (Path_of "/home/u/.config")
                                (Sample.world Sample.tree))))
               (Some {["git"]}) H1 H2).
Defined.

(** ** C6 *)

Lemma selection_specific_known self dotfiles exclude :
  selection_specific self
    (filter (fun n => Is_true (dict_in n (config_mapping self))) dotfiles) exclude
  = selection_specific self dotfiles exclude.
Proof.
  unfold selection_specific. apply list_filter_filter_l. by intros x [? _].
Qed.

Lemma selection_specific_unknown self dotfiles exclude :
  selection_specific self
    (filter (fun n => ¬ Is_true (dict_in n (config_mapping self))) dotfiles) exclude
  = [].
Proof.
  unfold selection_specific. rewrite list_filter_filter.
  induction dotfiles as [|x l IH]; [done|].
  rewrite filter_cons, decide_False by tauto. done.
Qed.

(** ** C7 *)

(** C7.  When the source of an entry does not exist, [_create_symlink]
    writes the warning and returns: the files are the same and no system
    call was performed, so no directory, backup or link was made.  The
    loop then goes on with the rest of the selection. *)
Theorem missing_source_skipped
    (self : DotfilesManager) (name : string) (m : Mapping)
    (rest : list string) (w : World) :
  dict_get (config_mapping self) name = Some m →
  Fs.exists_ (files w) (source m) = false →
  let w1 := mkWorld (files w)
                    (stdout w ++ [Log WARNING (SourceMissing (source m))])
                    (performed w) in
  _create_symlink (source m) (target m) w = (w1, Return tt)
  ∧ link_each self (name :: rest) w = link_each self rest w1.
Proof.
  intros Hm Hs w1. split.
  - by apply create_symlink_source_missing.
  - by rewrite link_each_cons, Hm, create_symlink_source_missing.
Qed.

Lemma missing_source_skipped_witness :
  dict_get (config_mapping Sample.manager) "bashrc"
  = Some (mkMapping (Path_of "/d/bashrc") (Path_of "/home/u/.bashrc"))
  ∧ Fs.exists_ Sample.tree (Path_of "/d/bashrc") = false
  ∧ link_each Sample.manager ["bashrc"; "git"] (Sample.world Sample.tree)
    = link_each Sample.manager ["git"]
        (mkWorld Sample.tree [Log WARNING (SourceMissing (Path_of "/d/bashrc"))] []).
Proof.
  assert (dict_get (config_mapping Sample.manager) "bashrc"
          = Some (mkMapping (Path_of "/d/bashrc") (Path_of "/home/u/.bashrc"))) as Hm
    by reflexivity.
  assert (Fs.exists_ Sample.tree (Path_of "/d/bashrc") = false) as Hs
    by (vm_compute; reflexivity).
  split; [exact Hm|]. split; [exact Hs|].
  exact (proj2 (missing_source_skipped Sample.manager "bashrc"
                  (mkMapping (Path_of "/d/bashrc") (Path_of "/home/u/.bashrc"))
                  ["git"] (Sample.world Sample.tree) Hm Hs)).
Defined.

(** ** C10 *)

(** C10.  When the source exists and the target is a symlink that does
    not resolve (in a directory, as every name is), [_create_symlink]
    neither unlinks nor renames it: no system call is performed and the
    files are the same.  [symlink_to] fails with [FileExistsError], the
    handler logs it as an error, the call returns, and the loop goes on
    with the rest of the selection. *)
Theorem dangling_target_left_in_place
    (self : DotfilesManager) (name : string) (m : Mapping)
    (rest : list string) (w : World) :
  dict_get (config_mapping self) name = Some m →
  Fs.exists_ (files w) (source m) = true →
  Fs.is_symlink (files w) (target m) = true →
  Fs.exists_ (files w) (target m) = false →
  Fs.is_dir (files w) (parent (target m)) = true →
  let failure := OSError Fs.EEXIST (source m) (Some (target m)) in
  let w1 := mkWorld (files w)
                    (stdout w ++ [Log ERROR (ErrorCreating (target m) failure)])
                    (performed w) in
  _create_symlink (source m) (target m) w = (w1, Return tt)
  ∧ link_each self (name :: rest) w = link_each self rest w1.
Proof.
  intros Hm Hs Hl Ht Hp failure w1. split.
  - by apply create_symlink_dangling.
  - by rewrite link_each_cons, Hm, create_symlink_dangling.
Qed.

Lemma dangling_target_left_in_place_witness :
  let m := mkMapping (Path_of "/d/git/config") (Path_of "/home/u/.git/config") in
  let w := Sample.world Sample.tree_dangling in
  dict_get (config_mapping Sample.manager) "git" = Some m
  ∧ Fs.exists_ (files w) (source m) = true
  ∧ Fs.is_symlink (files w) (target m) = true
  ∧ Fs.exists_ (files w) (target m) = false
  ∧ Fs.is_dir (files w) (parent (target m)) = true
  ∧ (_create_symlink (source m) (target m) w).2 = Return tt
  ∧ files (_create_symlink (source m) (target m) w).1 = Sample.tree_dangling.
Proof.
  intros m w.
  assert (dict_get (config_mapping Sample.manager) "git" = Some m) as H1 by reflexivity.
  assert (Fs.exists_ (files w) (source m) = true) as H2 by (vm_compute; reflexivity).
  assert (Fs.is_symlink (files w) (target m) = true) as H3 by (vm_compute; reflexivity).
  assert (Fs.exists_ (files w) (target m) = false) as H4 by (vm_compute; reflexivity).
  assert (Fs.is_dir (files w) (parent (target m)) = true) as H5 by (vm_compute; reflexivity).
  repeat (split; [assumption|]).
  destruct (dangling_target_left_in_place Sample.manager "git" m [] w H1 H2 H3 H4 H5)
    as [-> _].
  split; reflexivity.
Defined.

(** ** C4 *)

(** C4.  On a selection that passes the check and whose entries are all
    in place (each source exists, each target is a working symlink to its
    source), a run of [symlink_all] or [symlink_specific] unlinks every
    target and links it to the same source again, entry after entry,
    reports each link, and returns with the files exactly as they were. *)
Theorem rerun_is_idempotent
    (self : DotfilesManager) (sel : list string) (w : World) :
  duplicates self sel = [] →
  Forall (linked self (files w)) sel →
  let w' := mkWorld (files w)
                    (stdout w ++ relink_lines self sel)
                    (performed w ++ relink_calls self sel) in
  (∀ exclude, selection_all self (or_empty exclude) = sel →
              symlink_all self exclude w = (w', Return tt))
  ∧ (∀ dotfiles exclude,
        selection_specific self dotfiles (or_empty exclude) = sel →
        symlink_specific self dotfiles exclude w = (w', Return tt)).
Proof.
  intros Hd Hall w'. split.
  - intros exclude Hsel. unfold symlink_all. rewrite Hsel.
    rewrite run_bind, check_passes by done. by apply link_each_relink.
  - intros dotfiles exclude Hsel. unfold symlink_specific. rewrite Hsel.
    rewrite run_bind, check_passes by done. by apply link_each_relink.
Qed.

Lemma rerun_is_idempotent_witness :
  let w := Sample.after_first_run in
  duplicates Sample.manager ["git"; "tmux"] = []
  ∧ Forall (linked Sample.manager (files w)) ["git"; "tmux"]
  ∧ files (symlink_specific Sample.manager ["git"; "tmux"] None w).1 = files w
  ∧ (symlink_specific Sample.manager ["git"; "tmux"] None w).2 = Return tt.
Proof.
  intros w.
  assert (duplicates Sample.manager ["git"; "tmux"] = []) as Hd by reflexivity.
  assert (Forall (linked Sample.manager (files w)) ["git"; "tmux"]) as Hall.
  { repeat constructor.
    - exists (mkMapping (Path_of "/d/git/config") (Path_of "/home/u/.git/config")).
      repeat split; vm_compute; reflexivity.
    - exists (mkMapping (Path_of "/d/tmux/tmux.conf") (Path_of "/home/u/tmux/tmux.conf")).
      repeat split; vm_compute; reflexivity. }
  split; [exact Hd|]. split; [exact Hall|].
  rewrite (proj2 (rerun_is_idempotent Sample.manager ["git"; "tmux"] w Hd Hall)
                 ["git"; "tmux"] None eq_refl).
  split; reflexivity.
Defined.

(** ** C2 *)

(** A name without a suffix gets [.backup] appended. *)
Lemma with_suffix_appends t b :
  Pathlib.with_suffix t ".backup" = inr b → suffix t = "" → b = appended_backup t.
Proof.
  unfold Pathlib.with_suffix, appended_backup. simpl.
  destruct (name t) eqn:Hn; [done|]. simpl. intros [= <-] Hs.
  unfold suffix in Hs. rewrite Hn in Hs. unfold suffix. rewrite Hn, Hs. done.
Qed.

(** C2, as the code has it.  The backup path is
    [target.with_suffix(".backup")]: the last suffix of the target's name
    is replaced by [.backup], which is appended only to a name without a
    suffix.  When the source exists, the target is a regular file in a
    directory, and the backup path is another path and not a directory,
    [_create_symlink] renames the target to the backup path, which then
    holds the old contents, and makes the target a symlink to the
    source. *)
Theorem existing_file_backed_up_with_suffix
    (s t b : Path) (c : string) (w : World) :
  Fs.exists_ (files w) s = true →
  files w !! t = Some (Fs.File c) →
  files w !! parent t = Some Fs.Dir →
  Pathlib.with_suffix t ".backup" = inr b →
  b ≠ t →
  files w !! b ≠ Some Fs.Dir →
  ∃ w', _create_symlink s t w = (w', Return tt)
        ∧ files w' !! b = Some (Fs.File c)
        ∧ files w' !! t = Some (Fs.Symlink s)
        ∧ performed w' = performed w ++ [SysRename t b; SysSymlink s t]
        ∧ stdout w' = stdout w ++ [Log INFO (BackingUp t b);
                                   Log INFO (CreatedSymlink t s)]
        ∧ (suffix t = "" → b = appended_backup t).
Proof.
  intros Hs Ht Hp Hb Hne Hnd. eexists. split.
  - by apply create_symlink_backup.
  - simpl. rewrite lookup_insert_eq, lookup_insert_ne, lookup_insert_eq by done.
    repeat split; try done. by apply with_suffix_appends.
Qed.

Lemma existing_file_backed_up_with_suffix_witness :
  let s := Path_of "/d/tmux/tmux.conf" in
  let t := Path_of "/home/u/tmux/tmux.conf" in
  let b := Path_of "/home/u/tmux/tmux.backup" in
  let w := Sample.world Sample.tree in
  Fs.exists_ (files w) s = true
  ∧ files w !! t = Some (Fs.File "old")
  ∧ files w !! parent t = Some Fs.Dir
  ∧ Pathlib.with_suffix t ".backup" = inr b
  ∧ b ≠ t
  ∧ files w !! b ≠ Some Fs.Dir
  ∧ ∃ w', _create_symlink s t w = (w', Return tt)
          ∧ files w' !! b = Some (Fs.File "old").
Proof.
  intros s t b w.
  assert (Fs.exists_ (files w) s = true) as H1 by (vm_compute; reflexivity).
  assert (files w !! t = Some (Fs.File "old")) as H2 by (vm_compute; reflexivity).
  assert (files w !! parent t = Some Fs.Dir) as H3 by (vm_compute; reflexivity).
  assert (Pathlib.with_suffix t ".backup" = inr b) as H4 by (vm_compute; reflexivity).
  assert (b ≠ t) as H5 by (vm_compute; discriminate).
  assert (files w !! b ≠ Some Fs.Dir) as H6 by (vm_compute; discriminate).
  repeat (split; [assumption|]).
  destruct (existing_file_backed_up_with_suffix s t b "old" w H1 H2 H3 H4 H5 H6)
    as (w' & Hrun & Hb & _).
  exists w'. split; assumption.
Defined.

(** C2 as the specification states it fails: [~/tmux/tmux.conf] is a
    regular file and the source exists, yet after [_create_symlink] there
    is nothing at [~/tmux/tmux.conf.backup]; the old contents are at
    [~/tmux/tmux.backup]. *)
Lemma backup_path_is_not_target_dot_backup :
  let s := Path_of "/d/tmux/tmux.conf" in
  let t := Path_of "/home/u/tmux/tmux.conf" in
  let w := Sample.world Sample.tree in
  let w' := (_create_symlink s t w).1 in
  Fs.exists_ (files w) s = true
  ∧ files w !! t = Some (Fs.File "old")
  ∧ appended_backup t = Path_of "/home/u/tmux/tmux.conf.backup"
  ∧ files w' !! appended_backup t = None
  ∧ files w' !! Path_of "/home/u/tmux/tmux.backup" = Some (Fs.File "old")
  ∧ files w' !! t = Some (Fs.Symlink s).
Proof. vm_compute. repeat split; reflexivity. Qed.

(** ** C3 *)

(** A selection filtered out of a list stands in the order of that list. *)
Lemma filter_in_filter {A} `{EqDecision A} (P : A → Prop) `{∀ x, Decision (P x)}
    (l : list A) :
  filter (fun x => x ∈ filter P l) l = filter P l.
Proof.
  assert (∀ l0 : list A, (∀ x, x ∈ l0 → x ∈ l) →
            filter (fun x => x ∈ filter P l) l0 = filter P l0) as Hgen.
  { induction l0 as [|a l0 IH]; intros Hsub; [done|].
    rewrite !filter_cons, IH by (intros x Hx; apply Hsub; by right).
    destruct (decide (P a)) as [Hp|Hp].
    - rewrite decide_True; [done|]. apply list_elem_of_filter. split; [done|].
      apply Hsub. by left.
    - rewrite decide_False; [done|]. by intros [? _]%list_elem_of_filter. }
  by apply Hgen.
Qed.

Lemma selection_all_table_order self exclude :
  table_order self (selection_all self exclude) = selection_all self exclude.
Proof. unfold table_order, selection_all. apply filter_in_filter. Qed.

(** The loop that follows a check that passed. *)
Lemma symlink_all_passed self exclude w :
  duplicates self (selection_all self (or_empty exclude)) = [] →
  symlink_all self exclude w
  = link_each self (selection_all self (or_empty exclude)) w.
Proof. intros H. unfold symlink_all. by rewrite run_bind, check_passes. Qed.

Lemma symlink_specific_passed self dotfiles exclude w :
  duplicates self (selection_specific self dotfiles (or_empty exclude)) = [] →
  symlink_specific self dotfiles exclude w
  = link_each self (selection_specific self dotfiles (or_empty exclude)) w.
Proof. intros H. unfold symlink_specific. by rewrite run_bind, check_passes. Qed.

(** ** The manager [main] builds *)

Lemma init_run h d w :
  ∃ w1, __init__ h d w = (w1, Return (manager_of h d))
        ∧ files w1 = files w
        ∧ performed w1 = performed w
        ∧ stdout w1
          = stdout w
            ++ (if String.eqb (Str.lower (platform_system h)) "darwin" then []
                else if String.eqb (Str.lower (platform_system h)) "linux" then []
                else [Log WARNING (UnsupportedPlatform (Str.lower (platform_system h)))]).
Proof.
  unfold __init__, manager_of, get_default_config_dir, default_config_dir.
  rewrite run_bind.
  destruct (String.eqb (Str.lower (platform_system h)) "darwin") eqn:Hd.
  - rewrite run_ret. eexists. split; [reflexivity|]. by rewrite app_nil_r.
  - destruct (String.eqb (Str.lower (platform_system h)) "linux") eqn:Hl.
    + rewrite run_ret. eexists. split; [reflexivity|]. by rewrite app_nil_r.
    + rewrite run_bind. eexists. split; [reflexivity|]. done.
Qed.

Lemma name_join p key a :
  Path_of key = mkPath NoRoot [a] → name (p </> key) = a.
Proof.
  intros H. unfold joinpath. rewrite H. unfold name. simpl. apply last_last.
Qed.

(** Every target of the table has a last component. *)
Lemma default_targets_named d h c n m :
  dict_get (_load_config_mapping d h c) n = Some m → name (target m) ≠ "".
Proof.
  intros H. apply dict_get_elem in H. unfold _load_config_mapping in H.
  repeat (apply elem_of_cons in H as [Heq|H];
          [injection Heq as _ ->; simpl; erewrite name_join by reflexivity; done|]).
  by apply elem_of_nil in H.
Qed.

Lemma selection_all_named h d exclude :
  Forall (named (manager_of h d)) (selection_all (manager_of h d) exclude).
Proof.
  apply Forall_forall. intros n [_ Hk]%list_elem_of_filter.
  destruct (dict_get_keys _ _ Hk) as [m Hm]. exists m. split; [done|].
  exact (default_targets_named _ _ _ n m Hm).
Qed.

Lemma selection_specific_named h d dotfiles exclude :
  Forall (named (manager_of h d))
         (selection_specific (manager_of h d) dotfiles exclude).
Proof.
  apply Forall_forall. intros n [[Hin _] _]%list_elem_of_filter.
  apply Is_true_true, dict_in_get in Hin as [m Hm]. exists m. split; [done|].
  exact (default_targets_named _ _ _ n m Hm).
Qed.

(** ** C8 *)

(** What [main] does once the manager is built. *)
Lemma main_run h d args w :
  ∃ w1, files w1 = files w ∧ performed w1 = performed w ∧
    main h d args w
    = let self := manager_of h d in
      try_except
        (if args_all args then symlink_all self (Some (exclude_of args))
         else match given (args_limit args) with
              | Some l =>
                  symlink_specific self (Str.strip <$> Str.split "," l)
                                   (Some (exclude_of args))
              | None => emit Help ;; raise (SystemExit 1)
              end)
        (fun e => match e with
                  | ValueError _ =>
                      Some (logger.error (ErrorMsg e) ;; raise (SystemExit 1))
                  | _ => None
                  end) w1.
Proof.
  destruct (init_run h d w) as (w1 & Hinit & Hf & Hp & _).
  exists w1. repeat split; try done.
  unfold main. by rewrite run_bind, Hinit.
Qed.

(** The outcome of the guarded part of [main] for a selection. *)
Lemma guarded_outcome self sel (body : M unit) w1 w' r :
  Forall (named self) sel →
  (duplicates self sel = [] → body w1 = link_each self sel w1) →
  (duplicates self sel ≠ [] → ∃ msg, body w1 = (w1, Raise (ValueError msg))) →
  try_except body
    (fun e => match e with
              | ValueError _ =>
                  Some (logger.error (ErrorMsg e) ;; raise (SystemExit 1))
              | _ => None
              end) w1 = (w', r) →
  (∀ en f g, r ≠ Raise (OSError en f g)) →
  (exit_status r = 0 ↔ r = Return tt)
  ∧ (exit_status r ≠ 0 ↔ duplicates self sel ≠ []).
Proof.
  intros Hnamed Hpass Hfail Hrun Hos. unfold try_except in Hrun.
  destruct (decide (duplicates self sel = [])) as [Hd|Hd].
  - rewrite (Hpass Hd) in Hrun.
    destruct (link_each self sel w1) as [w2 [[]|e]] eqn:E.
    + injection Hrun as <- <-. simpl. split; [done|]. split; [done|]. congruence.
    + destruct (link_each_raises _ _ _ _ _ Hnamed E) as (en & f & g & ->).
      injection Hrun as <- <-. by destruct (Hos en f g).
  - destruct (Hfail Hd) as [msg Hb]. rewrite Hb in Hrun.
    injection Hrun as <- <-. simpl. split; [done|]. split; [done|]. lia.
Qed.

(** X22.  The exit status of the runs from which no [OSError] escapes
    (one can escape from the creation of the parent directories, the
    removal of a link or the backup rename, which are outside the [try]
    of [_create_symlink]): it is 0 exactly when [main] returns, and it is
    not 0 exactly when the invocation has neither [--all] nor a non-empty
    [--limit], or when the check of the selection fails.  Warnings for
    missing sources and failures of [symlink_to] do not change it. *)
Theorem exit_status_of_main
    (h : Host) (d : Path) (args : Args) (w w' : World) (r : Outcome unit) :
  main h d args w = (w', r) →
  (∀ en f g, r ≠ Raise (OSError en f g)) →
  let self := manager_of h d in
  (exit_status r = 0 ↔ r = Return tt)
  ∧ (exit_status r ≠ 0 ↔
     match requested self args with
     | None => True
     | Some sel => duplicates self sel ≠ []
     end).
Proof.
  intros Hrun Hos self.
  destruct (main_run h d args w) as (w1 & _ & _ & Hmain).
  rewrite Hmain in Hrun. cbv zeta in Hrun. fold self in Hrun.
  unfold requested. destruct (args_all args).
  - apply (guarded_outcome self (selection_all self (exclude_of args))
             (symlink_all self (Some (exclude_of args))) w1 w' r);
      [apply selection_all_named| | |exact Hrun|exact Hos].
    + intros Hd. by apply symlink_all_passed.
    + intros Hd. eexists. by apply symlink_all_collision.
  - destruct (given (args_limit args)) as [l|].
    + apply (guarded_outcome self
               (selection_specific self (Str.strip <$> Str.split "," l) (exclude_of args))
               (symlink_specific self (Str.strip <$> Str.split "," l)
                                 (Some (exclude_of args))) w1 w' r);
        [apply selection_specific_named| | |exact Hrun|exact Hos].
      * intros Hd. by apply symlink_specific_passed.
      * intros Hd. eexists. by apply symlink_specific_collision.
    + injection Hrun as <- <-. simpl. split; [done|]. split; [done|]. lia.
Qed.

Lemma exit_status_of_main_witness :
  let args := mkArgs false (Some "git, tmux") None None in
  let run := main Sample.host Sample.script_dir args (Sample.world Sample.tree) in
  (∀ en f g, run.2 ≠ Raise (OSError en f g))
  ∧ (exit_status run.2 = 0 ↔ run.2 = Return tt)
  ∧ (exit_status run.2 ≠ 0 ↔
     match requested Sample.manager args with
     | None => True
     | Some sel => duplicates Sample.manager sel ≠ []
     end).
Proof.
  intros args run.
  assert (∀ en f g, run.2 ≠ Raise (OSError en f g)) as Hos
    by (intros en f g; vm_compute; discriminate).
  split; [exact Hos|].
  exact (exit_status_of_main Sample.host Sample.script_dir args
           (Sample.world Sample.tree) run.1 run.2 (surjective_pairing run) Hos).
Defined.

(** C8.  The claim fails on the code.  With [~/.git] a regular file,
    [--limit git] names a subset that passes the check, so the claim has
    the run complete with exit status 0, the failure of the entry
    logged.  But [mkdir] is outside the [try] of [_create_symlink]: its
    [FileExistsError] escapes, [main] catches only [ValueError], and the
    exit status is 1 with nothing linked.  The sibling call [symlink_to]
    is guarded: with [~/.git/config] a dangling link the same kind of
    error is logged and the exit status is 0. *)
Lemma uncaught_oserror_exit_status :
  let args := mkArgs false (Some "git") None None in
  let run := main Sample.host Sample.script_dir args
                  (Sample.world Sample.tree_git_file) in
  let guarded := main Sample.host Sample.script_dir args
                      (Sample.world Sample.tree_dangling) in
  requested Sample.manager args = Some ["git"]
  ∧ duplicates Sample.manager ["git"] = []
  ∧ run.2 = Raise (OSError Fs.EEXIST (Path_of "/home/u/.git") None)
  ∧ exit_status run.2 = 1
  ∧ performed run.1 = []
  ∧ stdout run.1 = []
  ∧ exit_status guarded.2 = 0
  ∧ stdout guarded.1
    = [Log ERROR (ErrorCreating (Path_of "/home/u/.git/config")
                    (OSError Fs.EEXIST (Path_of "/d/git/config")
                             (Some (Path_of "/home/u/.git/config"))))].
Proof. vm_compute. repeat split; reflexivity. Qed.

(** ** Parsing a path and printing it *)

Lemma split_whole c x : Str.contains c x = false → Str.split c x = [x].
Proof.
  induction x as [|a x IH]; simpl; [done|].
  destruct (Ascii.eqb a c); [done|]. intros H. by rewrite IH.
Qed.

Lemma split_app c x rest :
  Str.contains c x = false →
  Str.split c (x ++ String c rest)%string = x :: Str.split c rest.
Proof.
  induction x as [|a x IH]; simpl.
  - by rewrite Ascii.eqb_refl.
  - destruct (Ascii.eqb a c); [done|]. intros H. by rewrite IH.
Qed.

Lemma split_parts_no_sep c s :
  Forall (fun x => Str.contains c x = false) (Str.split c s).
Proof.
  induction s as [|a s IH]; simpl.
  - by repeat constructor.
  - destruct (Ascii.eqb a c) eqn:Ha.
    + by constructor.
    + destruct (Str.split c s) as [|w ws].
      * repeat constructor. simpl. by rewrite Ha.
      * apply Forall_cons in IH as [Hw Hws]. constructor; [|done].
        simpl. by rewrite Ha.
Qed.

Lemma parse_parts_normal s : Forall normal_part (parse_parts s).
Proof.
  apply Forall_forall. intros x [Hk Hin]%list_elem_of_filter. split; [done|].
  pose proof (split_parts_no_sep "/" s) as H.
  by eapply Forall_forall in H.
Qed.

Lemma parse_join ps :
  Forall normal_part ps → parse_parts (Str.join "/" ps) = ps.
Proof.
  induction ps as [|x ps IH]; intros Hall; [done|].
  apply Forall_cons in Hall as [[Hk Hc] Hall].
  destruct ps as [|y ps].
  - simpl. unfold parse_parts. rewrite split_whole by done.
    by rewrite filter_cons, decide_True.
  - change (Str.join "/" (x :: y :: ps))
      with (x ++ String "/" (Str.join "/" (y :: ps)))%string.
    unfold parse_parts. rewrite split_app by done.
    rewrite filter_cons, decide_True by done. f_equal. by apply IH.
Qed.

Lemma join_head ps : Forall normal_part ps → head_not_slash (Str.join "/" ps).
Proof.
  intros Hall. destruct ps as [|x ps]; [done|].
  apply Forall_cons in Hall as [[Hk Hc] _].
  destruct x as [|a x]; [done|].
  assert (a ≠ "/"%char) as Ha.
  { simpl in Hc. destruct (Ascii.eqb_spec a "/"); [done|done]. }
  destruct ps; done.
Qed.

Lemma splitroot_relative s : head_not_slash s → splitroot s = (NoRoot, s).
Proof.
  destruct s as [|a s]; [done|]. simpl. intros Ha.
  destruct a as [[] [] [] [] [] [] [] []]; try reflexivity. done.
Qed.

Lemma splitroot_slash s : head_not_slash s → splitroot (String "/" s) = (Slash, s).
Proof.
  destruct s as [|a s]; [done|]. simpl. intros Ha.
  destruct a as [[] [] [] [] [] [] [] []]; try reflexivity. done.
Qed.

Lemma splitroot_two_slashes s :
  head_not_slash s → splitroot (String "/" (String "/" s)) = (TwoSlashes, s).
Proof.
  destruct s as [|a s]; [done|]. simpl. intros Ha.
  destruct a as [[] [] [] [] [] [] [] []]; try reflexivity. done.
Qed.

(** [Path(str(p)) == p] for a path whose components are what the parser
    keeps. *)
Lemma Path_of_split s r rel :
  splitroot s = (r, rel) → Path_of s = mkPath r (parse_parts rel).
Proof. intros H. unfold Path_of. by rewrite H. Qed.

Lemma Path_of_str p : Forall normal_part (parts p) → Path_of (str p) = p.
Proof.
  destruct p as [r ps]. simpl. intros Hall.
  pose proof (join_head ps Hall) as Hh. pose proof (parse_join ps Hall) as Hp.
  destruct r.
  - destruct ps as [|x ps]; [done|].
    change (str (mkPath NoRoot (x :: ps))) with (Str.join "/" (x :: ps)).
    rewrite (Path_of_split _ NoRoot (Str.join "/" (x :: ps)))
      by by apply splitroot_relative.
    by rewrite Hp.
  - change (str (mkPath Slash ps)) with (String "/" (Str.join "/" ps)).
    rewrite (Path_of_split _ Slash (Str.join "/" ps)) by by apply splitroot_slash.
    by rewrite Hp.
  - change (str (mkPath TwoSlashes ps))
      with (String "/" (String "/" (Str.join "/" ps))).
    rewrite (Path_of_split _ TwoSlashes (Str.join "/" ps))
      by by apply splitroot_two_slashes.
    by rewrite Hp.
Qed.

Lemma Path_of_normal s : Forall normal_part (parts (Path_of s)).
Proof.
  unfold Path_of. destruct (splitroot s) as [r rel]. apply parse_parts_normal.
Qed.

Lemma joinpath_normal p key :
  Forall normal_part (parts p) → Forall normal_part (parts (p </> key)).
Proof.
  intros Hp. unfold joinpath.
  destruct (root (Path_of key)) eqn:Hr; try apply Path_of_normal.
  simpl. apply Forall_app. split; [done|apply Path_of_normal].
Qed.

(** ** C9 *)

(** C9.  [__init__] always returns the manager, without touching the
    filesystem.  Its configuration root is the path the value of
    [CONFIG_DIR] parses to when the variable is set.  Otherwise it is
    [~/Library/Application Support] when [platform.system()] is Darwin,
    [~/.config] when it is Linux, and [~/.config] for any other system,
    in which case the warning about the unsupported platform is
    logged. *)
Theorem config_dir_resolution (h : Host) (d : Path) (w : World) :
  ∃ w', __init__ h d w = (w', Return (manager_of h d))
        ∧ files w' = files w
        ∧ performed w' = performed w
        ∧ let system := Str.lower (platform_system h) in
          let home := Path_home h in
          let self := manager_of h d in
          match environ h !! "CONFIG_DIR" with
          | Some v => config_dir self = Path_of v
          | None =>
              if String.eqb system "darwin" then
                config_dir self = home </> "Library" </> "Application Support"
                ∧ stdout w' = stdout w
              else if String.eqb system "linux" then
                config_dir self = home </> ".config"
                ∧ stdout w' = stdout w
              else
                config_dir self = home </> ".config"
                ∧ stdout w' = stdout w ++ [Log WARNING (UnsupportedPlatform system)]
          end.
Proof.
  destruct (init_run h d w) as (w' & Hrun & Hf & Hp & Ho).
  exists w'. repeat (split; [done|]). cbv zeta.
  unfold manager_of, getenv, default_config_dir. simpl config_dir.
  destruct (environ h !! "CONFIG_DIR") as [v|]; [done|].
  assert (∀ k1, Path_of (str (Path_home h </> k1)) = Path_home h </> k1) as H1.
  { intros k1. apply Path_of_str, joinpath_normal, Path_of_normal. }
  assert (∀ k1 k2, Path_of (str (Path_home h </> k1 </> k2))
                   = Path_home h </> k1 </> k2) as H2.
  { intros k1 k2. apply Path_of_str, joinpath_normal, joinpath_normal, Path_of_normal. }
  destruct (String.eqb (Str.lower (platform_system h)) "darwin").
  - split; [apply H2|]. by rewrite Ho, app_nil_r.
  - destruct (String.eqb (Str.lower (platform_system h)) "linux").
    + split; [apply H1|]. by rewrite Ho, app_nil_r.
    + split; [apply H1|done].
Qed.

(** * Further properties of the script *)

(** ** More on the check of the targets *)

Lemma add_to_group_keys_old t n (d : list (Path * list string)) :
  t ∈ d.*1 → (add_to_group t n d).*1 = d.*1.
Proof.
  induction d as [|[t0 names] d IH]; intros Hin.
  - by apply elem_of_nil in Hin.
  - cbn [add_to_group]. destruct (decide (t0 = t)) as [->|Hne]; [done|].
    cbn [fmap list_fmap fst]. f_equal. apply IH.
    apply elem_of_cons in Hin as [Heq|?]; [simpl in Heq; congruence|done].
Qed.

Lemma add_to_group_keys_new t n (d : list (Path * list string)) :
  t ∉ d.*1 → (add_to_group t n d).*1 = d.*1 ++ [t].
Proof.
  induction d as [|[t0 names] d IH]; intros Hin; [done|].
  cbn [add_to_group]. destruct (decide (t0 = t)) as [->|Hne].
  - destruct Hin. left.
  - cbn [fmap list_fmap fst app]. f_equal. apply IH.
    intros H. apply Hin. by right.
Qed.

Lemma add_to_group_NoDup t n (d : list (Path * list string)) :
  NoDup d.*1 → NoDup (add_to_group t n d).*1.
Proof.
  intros Hd. destruct (decide (t ∈ d.*1)) as [Hin|Hin].
  - by rewrite add_to_group_keys_old.
  - rewrite add_to_group_keys_new by done.
    apply NoDup_app. repeat split; [done| |apply NoDup_singleton].
    intros x Hx ->%list_elem_of_singleton. done.
Qed.

Lemma collect_NoDup self names : ∀ d, NoDup d.*1 → NoDup (collect self d names).*1.
Proof.
  induction names as [|n names IH]; intros d Hd; [done|].
  unfold collect in *. simpl.
  destruct (dict_get (config_mapping self) n); apply IH; [|done].
  by apply add_to_group_NoDup.
Qed.

Lemma group_of_elem t names (d : list (Path * list string)) :
  NoDup d.*1 → (t, names) ∈ d → group t d = names.
Proof.
  induction d as [|[t0 names0] d IH]; simpl.
  - by intros _ ?%elem_of_nil.
  - intros [Hnin Hd]%NoDup_cons [Heq|Hin]%elem_of_cons.
    + injection Heq as <- <-. by rewrite decide_True.
    + rewrite decide_False; [by apply IH|].
      intros ->. apply Hnin. apply list_elem_of_fmap. by exists (t, names).
Qed.

Lemma two_hits_inv {A} (P : A → Prop) `{∀ x, Decision (P x)} (l : list A) :
  2 ≤ length (filter P l) →
  ∃ i j x y, i < j ∧ l !! i = Some x ∧ l !! j = Some y ∧ P x ∧ P y.
Proof.
  induction l as [|a l IH]; [simpl; lia|].
  rewrite filter_cons. destruct (decide (P a)) as [Ha|Ha]; simpl; intros Hlen.
  - destruct (filter P l) as [|y ys] eqn:Hf; [simpl in Hlen; lia|].
    assert (y ∈ filter P l) as [Py [j Hj]%list_elem_of_lookup_1]%list_elem_of_filter
      by (rewrite Hf; left).
    exists 0, (S j), a, y. repeat split; try done. lia.
  - destruct (IH Hlen) as (i & j & x & y & Hij & Hi & Hj & Px & Py).
    exists (S i), (S j), x, y. repeat split; try done. lia.
Qed.

Lemma duplicates_spec self sel t names :
  (t, names) ∈ duplicates self sel
  ↔ names = filter (fun n => target_of self n = Some t) sel ∧ 2 ≤ length names.
Proof.
  unfold duplicates. change (target_to_dotfiles self sel) with (collect self [] sel).
  assert (NoDup (collect self [] sel).*1) as Hnd
    by (apply collect_NoDup; constructor).
  assert (∀ t, group t (collect self [] sel)
               = filter (fun n => target_of self n = Some t) sel) as Hg
    by (intros t'; apply (group_collect self t' sel [])).
  rewrite list_elem_of_filter. simpl. split.
  - intros [Hlen Hin]. split; [|lia].
    rewrite <- Hg. symmetry. by apply group_of_elem.
  - intros [-> Hlen]. split; [lia|]. rewrite <- Hg. apply group_elem.
    rewrite Hg. intros Heq. rewrite Heq in Hlen. simpl in Hlen. lia.
Qed.

Lemma duplicates_collides self sel : duplicates self sel ≠ [] → collides self sel.
Proof.
  intros Hd. destruct (duplicates self sel) as [|[t names] ds] eqn:E; [done|].
  assert ((t, names) ∈ duplicates self sel) as Hin by (rewrite E; left).
  apply duplicates_spec in Hin as [-> Hlen].
  destruct (two_hits_inv _ _ Hlen) as (i & j & x & y & Hij & Hi & Hj & Px & Py).
  exists i, j, x, y, t. repeat split; try done. lia.
Qed.

(** X1.  The groups the error message lists are exactly the targets
    that two or more names of the selection resolve to, each with all
    those names in the order of the selection; no target is listed
    twice. *)
Theorem duplicates_are_the_colliding_groups
    (self : DotfilesManager) (sel : list string) :
  NoDup (duplicates self sel).*1
  ∧ ∀ t names,
      (t, names) ∈ duplicates self sel
      ↔ names = filter (fun n => target_of self n = Some t) sel
        ∧ 2 ≤ length names.
Proof.
  split; [|apply duplicates_spec].
  unfold duplicates. change (target_to_dotfiles self sel) with (collect self [] sel).
  apply (sublist_NoDup _ (collect self [] sel).*1).
  - apply (collect_NoDup self sel []). simpl. constructor.
  - apply fmap_sublist, sublist_filter.
Qed.

(** X2.  [_check_duplicate_targets] never changes the world.  It raises
    its [ValueError] exactly when two places of the selection hold names
    that resolve to the same target, and returns otherwise: a selection
    without a collision always passes. *)
Theorem check_fails_exactly_on_collision
    (self : DotfilesManager) (sel : list string) (w : World) :
  (_check_duplicate_targets self sel w
   = (w, Raise (ValueError (error_msg (duplicates self sel))))
   ↔ collides self sel)
  ∧ (_check_duplicate_targets self sel w = (w, Return tt)
     ↔ ¬ collides self sel).
Proof.
  pose proof (duplicates_collides self sel) as Hcol.
  destruct (decide (duplicates self sel = [])) as [Hd|Hd].
  - rewrite (check_passes _ _ _ Hd). split; split; try done.
    + intros Hc. by apply collides_duplicates in Hc.
    + intros _ Hc. by apply collides_duplicates in Hc.
  - rewrite (check_fails _ _ _ Hd). split; split; try done.
    + intros _. by apply Hcol.
    + intros Hn. destruct Hn. by apply Hcol.
Qed.

(** ** Making the directories above a target *)

Lemma with_dirs_snoc fs ds d : with_dirs fs (ds ++ [d]) = <[d := Fs.Dir]> (with_dirs fs ds).
Proof. unfold with_dirs. by rewrite foldl_app. Qed.

Lemma with_dirs_app fs ds1 ds2 :
  with_dirs fs (ds1 ++ ds2) = with_dirs (with_dirs fs ds1) ds2.
Proof. unfold with_dirs. by rewrite foldl_app. Qed.

Lemma with_dirs_lookup_in fs ds q : q ∈ ds → with_dirs fs ds !! q = Some Fs.Dir.
Proof.
  induction ds as [|d ds IH] using rev_ind; [by intros ?%elem_of_nil|].
  rewrite with_dirs_snoc. intros [Hin| ->%list_elem_of_singleton]%elem_of_app.
  - destruct (decide (d = q)) as [->|Hne]; [by rewrite lookup_insert_eq|].
    rewrite lookup_insert_ne by done. by apply IH.
  - by rewrite lookup_insert_eq.
Qed.

Lemma with_dirs_lookup_out fs ds q : q ∉ ds → with_dirs fs ds !! q = fs !! q.
Proof.
  induction ds as [|d ds IH] using rev_ind; [done|].
  rewrite with_dirs_snoc. intros Hnin.
  rewrite lookup_insert_ne; [apply IH|]; set_solver.
Qed.

Lemma with_dirs_lookup_none fs ds q : with_dirs fs ds !! q = None → fs !! q = None.
Proof.
  intros H. destruct (decide (q ∈ ds)) as [Hin|Hnin].
  - by rewrite with_dirs_lookup_in in H.
  - by rewrite with_dirs_lookup_out in H.
Qed.

(** Making directories that did not exist loses nothing. *)
Lemma with_dirs_subseteq fs ds :
  Forall (fun q => fs !! q = None) ds → fs ⊆ with_dirs fs ds.
Proof.
  intros Hall. apply map_subseteq_spec. intros q nd Hq.
  rewrite with_dirs_lookup_out; [done|].
  intros Hin. rewrite Forall_forall in Hall. specialize (Hall _ Hin). congruence.
Qed.

Lemma above_or_self_refl p : above_or_self p p.
Proof. by split. Qed.

Lemma above_or_self_parent q p : above_or_self q (parent p) → above_or_self q p.
Proof.
  intros [Hr Hp]. split; [done|]. simpl in Hp. etrans; [done|].
  destruct (parts p) as [|x xs] using rev_ind; [done|].
  rewrite removelast_last. by apply prefix_app_r.
Qed.

Lemma makes_dirs_refl p w : makes_dirs p w w [].
Proof. repeat split; simpl; [by rewrite app_nil_r|constructor]. Qed.

Lemma makes_dirs_trans p w w1 w2 m1 m2 :
  makes_dirs p w w1 m1 → makes_dirs p w1 w2 m2 → makes_dirs p w w2 (m1 ++ m2).
Proof.
  intros (Ho1 & Hp1 & Hf1 & Ha1) (Ho2 & Hp2 & Hf2 & Ha2). repeat split.
  - congruence.
  - by rewrite Hp2, Hp1, fmap_app, app_assoc.
  - by rewrite Hf2, Hf1, with_dirs_app.
  - apply Forall_app. split; [done|].
    eapply Forall_impl; [exact Ha2|]. intros q [Hq Hn]. split; [done|].
    rewrite Hf1 in Hn. by eapply with_dirs_lookup_none.
Qed.

Lemma makes_dirs_parent p w w' made :
  makes_dirs (parent p) w w' made → makes_dirs p w w' made.
Proof.
  intros (Ho & Hp & Hf & Ha). repeat split; try done.
  eapply Forall_impl; [exact Ha|]. intros q [Hq Hn]. split; [|done].
  by apply above_or_self_parent.
Qed.

(** [os.mkdir] makes the one directory, or fails and changes nothing. *)
Lemma os_mkdir_run q w w' r :
  os_mkdir q w = (w', r) →
  (r = Return tt ∧ makes_dirs q w w' [q] ∧ Fs.is_dir (files w') q = true)
  ∨ (w' = w ∧ ∃ en, r = Raise (OSError en q None)).
Proof.
  unfold os_mkdir, syscall, Fs.mkdir.
  destruct (files w !! q) eqn:Hq; [intros [= <- <-]; right; eauto|].
  destruct (Fs.dir_for (files w) q); intros [= <- <-]; [right; eauto|left].
  split; [done|]. split.
  - repeat split; simpl. constructor; [|constructor].
    split; [apply above_or_self_refl|done].
  - simpl. apply is_dir_of_lookup. by rewrite lookup_insert_eq.
Qed.

Lemma unless_is_dir_run q e w w' r :
  unless_is_dir q e w = (w', r) →
  w' = w ∧ (r = Return tt ∧ Fs.is_dir (files w) q = true ∨ r = Raise e).
Proof.
  unfold unless_is_dir. rewrite run_bind. unfold is_dir, ask.
  destruct (Fs.is_dir (files w) q); intros [= <- <-]; split; auto.
Qed.

Ltac settle_mkdir :=
  split; [first [apply makes_dirs_refl|done]|];
  split; [done|]; intros ? ?; simplify_eq; eauto.

Lemma mkdir_exist_ok_run q w w' r :
  mkdir_exist_ok q w = (w', r) →
  ∃ made, makes_dirs q w w' made
          ∧ (r = Return tt → Fs.is_dir (files w') q = true)
          ∧ (∀ e, r = Raise e → ∃ en f g, e = OSError en f g).
Proof.
  unfold mkdir_exist_ok, try_except.
  destruct (os_mkdir q w) as [w1 r1] eqn:E.
  apply os_mkdir_run in E as [(-> & Hm & Hd)|(-> & en & ->)].
  - intros [= <- <-]. exists [q]. settle_mkdir.
  - destruct en; cbn beta iota.
    2: { intros [= <- <-]. exists []. settle_mkdir. }
    all: intros (-> & [[-> Hd]| ->])%unless_is_dir_run; exists []; settle_mkdir.
Qed.

Lemma mkdir_parents_from_run r rparts : ∀ w w' res,
  mkdir_parents_from r rparts w = (w', res) →
  ∃ made, makes_dirs (mkPath r (rev rparts)) w w' made
          ∧ (res = Return tt → Fs.is_dir (files w') (mkPath r (rev rparts)) = true)
          ∧ (∀ e, res = Raise e → ∃ en f g, e = OSError en f g).
Proof.
  induction rparts as [|x up IH]; intros w w' res; rewrite mkdir_parents_from_eq;
    cbv zeta; unfold try_except;
    destruct (os_mkdir _ w) as [w1 r1] eqn:E;
    apply os_mkdir_run in E as [(-> & Hm & Hd)|(-> & en & ->)].
  - intros [= <- <-]. exists [mkPath r (rev [])]. settle_mkdir.
  - destruct en; cbn beta iota.
    2: { intros [= <- <-]. exists []. settle_mkdir. }
    all: intros (-> & [[-> Hd]| ->])%unless_is_dir_run; exists []; settle_mkdir.
  - intros [= <- <-]. exists [mkPath r (rev (x :: up))]. settle_mkdir.
  - destruct en; cbn beta iota.
    1,3-7: intros (-> & [[-> Hd]| ->])%unless_is_dir_run; exists []; settle_mkdir.
    rewrite run_bind.
    destruct (mkdir_parents_from r up w) as [w1 [[]|e1]] eqn:E1;
      destruct (IH _ _ _ E1) as (made1 & Hm1 & Hd1 & He1).
    + intros (made2 & Hm2 & Hd2 & He2)%mkdir_exist_ok_run.
      exists (made1 ++ made2). split; [|done].
      eapply makes_dirs_trans; [|done].
      apply makes_dirs_parent. unfold parent. simpl. by rewrite removelast_last.
    + intros [= <- <-]. exists made1. split; [|split].
      * apply makes_dirs_parent. unfold parent. simpl. by rewrite removelast_last.
      * intros [=].
      * intros e [= <-]. by apply He1.
Qed.

(** X3.  [Path.mkdir(parents=True, exist_ok=True)], whatever the
    filesystem: it only ever makes directories, each the path itself or
    one above it and none that existed; so no file, link or directory
    that was there is changed or lost.  It writes nothing.  When it
    returns the path is a directory, and when it fails it is with an
    [OSError]. *)
Theorem mkdir_parents_only_makes_directories (p : Path) (w : World) :
  let w' := (mkdir_parents p w).1 in
  let r := (mkdir_parents p w).2 in
  (∃ made, makes_dirs p w w' made)
  ∧ files w ⊆ files w'
  ∧ (r = Return tt → Fs.is_dir (files w') p = true)
  ∧ (∀ e, r = Raise e → ∃ en f g, e = OSError en f g).
Proof.
  intros w' r. assert (mkdir_parents p w = (w', r)) as H by apply surjective_pairing.
  clearbody w' r. unfold mkdir_parents in H.
  destruct (mkdir_parents_from_run _ _ _ _ _ H) as (made & Hm & Hd & He).
  rewrite rev_involutive, path_eta in *.
  split; [by exists made|]. split; [|done].
  destruct Hm as (_ & _ & -> & Hall). apply with_dirs_subseteq.
  eapply Forall_impl; [exact Hall|]. by intros q [_ ?].
Qed.

(** ** A target in directories that are not there yet *)

Lemma descent_snoc r base extra x :
  descent r base (extra ++ [x])
  = descent r base extra ++ [mkPath r (base ++ extra ++ [x])].
Proof.
  unfold descent. rewrite length_app. simpl length. rewrite seq_app, fmap_app.
  f_equal.
  - apply Forall_fmap_ext, Forall_forall. intros k [_ Hk]%elem_of_seq.
    rewrite take_app_le by lia. done.
  - simpl. by rewrite take_ge by (rewrite length_app; simpl; lia).
Qed.

Lemma descent_elem r base extra q :
  q ∈ descent r base extra →
  root q = r ∧ length (parts q) ≤ length base + length extra
  ∧ base `prefix_of` parts q ∧ parts q `prefix_of` base ++ extra.
Proof.
  unfold descent. intros (k & -> & [_ Hk]%elem_of_seq)%list_elem_of_fmap. simpl.
  split; [done|]. split; [|split].
  - rewrite length_app, length_take. lia.
  - by apply prefix_app_r.
  - apply prefix_app, prefix_take.
Qed.

Lemma descent_last r base extra :
  extra ≠ [] → mkPath r (base ++ extra) ∈ descent r base extra.
Proof.
  intros Hne. unfold descent. apply list_elem_of_fmap. exists (length extra).
  split; [by rewrite take_ge|].
  apply elem_of_seq. destruct extra; [done|simpl; lia].
Qed.

Lemma descent_not_below r base extra x :
  mkPath r (base ++ extra ++ [x]) ∉ descent r base extra.
Proof.
  intros (_ & Hlen & _)%descent_elem. simpl in Hlen.
  rewrite !length_app in Hlen. simpl in Hlen. lia.
Qed.

Lemma with_dirs_descent_bottom (fs : Fs.t) r base extra :
  fs !! mkPath r base = Some Fs.Dir →
  with_dirs fs (descent r base extra) !! mkPath r (base ++ extra) = Some Fs.Dir.
Proof.
  intros Hb. destruct (decide (extra = [])) as [->|Hne].
  - by rewrite app_nil_r.
  - by apply with_dirs_lookup_in, descent_last.
Qed.

Lemma stat_lookup_none (fs : Fs.t) p : fs !! p = None → Fs.stat fs p = inl Fs.ENOENT.
Proof. intros H. unfold Fs.stat. simpl. by rewrite H. Qed.

Lemma fs_mkdir_new (fs : Fs.t) p :
  fs !! p = None → fs !! parent p = Some Fs.Dir →
  Fs.mkdir fs p = inr (<[p := Fs.Dir]> fs).
Proof.
  intros Hp Hd. unfold Fs.mkdir, Fs.dir_for. by rewrite Hp, (stat_lookup_dir _ _ Hd).
Qed.

Lemma fs_mkdir_noent (fs : Fs.t) p :
  fs !! p = None → fs !! parent p = None →
  Fs.not_dir_above fs (root p) (rev (parts (parent p))) = false →
  Fs.mkdir fs p = inl Fs.ENOENT.
Proof.
  intros Hp Hd Hn. unfold Fs.mkdir, Fs.dir_for.
  by rewrite Hp, (stat_lookup_none _ _ Hd), Hd, Hn.
Qed.

(** Below a directory [base], with nothing at the directories on the way
    down, no file bars the way. *)
Lemma not_dir_above_descent (fs : Fs.t) r base extra :
  fs !! mkPath r base = Some Fs.Dir →
  Forall (fun q => fs !! q = None) (descent r base extra) →
  extra ≠ [] →
  Fs.not_dir_above fs r (rev (base ++ extra)) = false.
Proof.
  intros Hb. induction extra as [|y extra IH] using rev_ind; [done|].
  intros Hall _. rewrite descent_snoc, Forall_app in Hall. destruct Hall as [Hall _].
  rewrite app_assoc, rev_unit. cbn [Fs.not_dir_above]. rewrite rev_involutive.
  destruct (decide (extra = [])) as [->|Hne].
  - rewrite app_nil_r, Hb, (stat_lookup_dir _ _ Hb). done.
  - rewrite Forall_forall in Hall.
    rewrite (Hall _ (descent_last r base extra Hne)).
    apply IH; [by apply Forall_forall|done].
Qed.

Lemma parent_snoc r ps x : parent (mkPath r (ps ++ [x])) = mkPath r ps.
Proof. unfold parent. simpl. by rewrite removelast_last. Qed.

(** From a directory [base] that exists, the missing directories down to
    [base/extra] are made from the top. *)
Lemma mkdir_parents_from_descent r base extra : ∀ w,
  files w !! mkPath r base = Some Fs.Dir →
  Forall (fun q => files w !! q = None) (descent r base extra) →
  mkdir_parents_from r (rev (base ++ extra)) w
  = (mkWorld (with_dirs (files w) (descent r base extra)) (stdout w)
             (performed w ++ (SysMkdir <$> descent r base extra)),
     Return tt).
Proof.
  induction extra as [|x extra IH] using rev_ind; intros w Hb Hall.
  - rewrite app_nil_r.
    pose proof (mkdir_parents_is_dir (mkPath r base) w (is_dir_of_lookup _ _ Hb)) as H.
    unfold mkdir_parents in H. simpl in H. rewrite H.
    unfold descent. simpl. by rewrite app_nil_r, world_eta.
  - rewrite descent_snoc in Hall |- *. rewrite Forall_app, Forall_singleton in Hall.
    destruct Hall as [Hall Hx].
    rewrite app_assoc, rev_unit, mkdir_parents_from_eq. cbv zeta.
    change (rev (x :: rev (base ++ extra))) with (rev (rev (base ++ extra)) ++ [x]).
    rewrite rev_involutive, <- app_assoc.
    set (self := mkPath r (base ++ extra ++ [x])) in *.
    assert (parent self = mkPath r (base ++ extra)) as Hpar.
    { unfold self. rewrite app_assoc. apply parent_snoc. }
    unfold try_except.
    destruct (decide (extra = [])) as [->|Hne].
    + rewrite app_nil_r in Hpar.
      unfold os_mkdir. erewrite run_syscall_ok; cycle 1.
      { cbv beta. simpl files. apply fs_mkdir_new; [done|]. by rewrite Hpar. }
      unfold descent. simpl. done.
    + assert (files w !! parent self = None) as Hpn.
      { rewrite Hpar. rewrite Forall_forall in Hall. by apply Hall, descent_last. }
      unfold os_mkdir at 1. erewrite run_syscall_err; cycle 1.
      { cbv beta. apply fs_mkdir_noent; [done|done|].
        rewrite Hpar. simpl root. simpl parts.
        by apply not_dir_above_descent. }
      cbv beta iota. rewrite run_bind, IH by done.
      unfold mkdir_exist_ok, try_except, os_mkdir.
      erewrite run_syscall_ok; cycle 1.
      { cbv beta. simpl files. apply fs_mkdir_new.
        - rewrite with_dirs_lookup_out by apply descent_not_below. done.
        - rewrite Hpar. by apply with_dirs_descent_bottom. }
      simpl. by rewrite with_dirs_snoc, fmap_app, app_assoc.
Qed.

(** X4.  [mkdir(parents=True, exist_ok=True)] on [base/x1/.../xn], when
    [base] is a directory and nothing is at [base/x1], [base/x1/x2], ...:
    it makes exactly these directories, the highest first, and
    returns. *)
Theorem mkdir_parents_makes_the_missing_chain
    (r : Root) (base extra : list string) (w : World) :
  files w !! mkPath r base = Some Fs.Dir →
  Forall (fun q => files w !! q = None) (descent r base extra) →
  mkdir_parents (mkPath r (base ++ extra)) w
  = (mkWorld (with_dirs (files w) (descent r base extra)) (stdout w)
             (performed w ++ (SysMkdir <$> descent r base extra)),
     Return tt).
Proof. intros Hb Hall. by apply mkdir_parents_from_descent. Qed.

Lemma mkdir_parents_makes_the_missing_chain_witness :
  let w := Sample.world Sample.tree in
  files w !! mkPath Slash ["home"; "u"] = Some Fs.Dir
  ∧ Forall (fun q => files w !! q = None) (descent Slash ["home"; "u"] [".git"; "hooks"])
  ∧ performed (mkdir_parents (mkPath Slash (["home"; "u"] ++ [".git"; "hooks"])) w).1
    = [SysMkdir (Path_of "/home/u/.git"); SysMkdir (Path_of "/home/u/.git/hooks")].
Proof.
  intros w.
  assert (files w !! mkPath Slash ["home"; "u"] = Some Fs.Dir) as H1
    by (vm_compute; reflexivity).
  assert (Forall (fun q => files w !! q = None)
                 (descent Slash ["home"; "u"] [".git"; "hooks"])) as H2
    by (repeat constructor; vm_compute; reflexivity).
  split; [exact H1|]. split; [exact H2|].
  rewrite (mkdir_parents_makes_the_missing_chain Slash ["home"; "u"] [".git"; "hooks"]
             w H1 H2).
  reflexivity.
Defined.

(** X5.  A first link.  The source exists, nothing is at the target
    [base/x1/.../xn/name] nor at the directories [base/x1], ... above it,
    and [base] is a directory: [_create_symlink] makes these directories
    from the top, then the link, reports it and returns; no backup is
    made and nothing is removed. *)
Theorem first_link_makes_parents_then_link
    (s : Path) (r : Root) (base extra : list string) (nm : string) (w : World) :
  let t := mkPath r (base ++ extra ++ [nm]) in
  Fs.exists_ (files w) s = true →
  files w !! mkPath r base = Some Fs.Dir →
  Forall (fun q => files w !! q = None) (descent r base extra) →
  files w !! t = None →
  _create_symlink s t w
  = (mkWorld (<[t := Fs.Symlink s]> (with_dirs (files w) (descent r base extra)))
             (stdout w ++ [Log INFO (CreatedSymlink t s)])
             (performed w ++ (SysMkdir <$> descent r base extra) ++ [SysSymlink s t]),
     Return tt).
Proof.
  intros t Hs Hb Hall Ht.
  assert (parent t = mkPath r (base ++ extra)) as Hpar.
  { unfold t. rewrite app_assoc. apply parent_snoc. }
  assert (with_dirs (files w) (descent r base extra) !! t = None) as Ht1.
  { rewrite with_dirs_lookup_out by apply descent_not_below. done. }
  unfold _create_symlink. rewrite run_bind. unfold exists_ at 1, ask. rewrite Hs.
  cbv beta iota. change (negb true) with false. cbv iota. rewrite run_bind, Hpar.
  unfold mkdir_parents. simpl root. simpl parts.
  rewrite mkdir_parents_from_descent by done.
  rewrite run_bind. unfold exists_, ask, Fs.exists_. simpl files.
  rewrite (stat_lookup_none _ _ Ht1). rewrite run_bind, run_ret.
  unfold try_except. rewrite run_bind.
  unfold symlink_to. erewrite run_syscall_ok; cycle 1.
  { cbv beta. simpl files. apply fs_symlink_new; [done|]. rewrite Hpar.
    by apply with_dirs_descent_bottom. }
  rewrite run_info. simpl. by rewrite <- !app_assoc.
Qed.

Lemma first_link_makes_parents_then_link_witness :
  let s := Path_of "/d/git/config" in
  let w := Sample.world Sample.tree in
  Fs.exists_ (files w) s = true
  ∧ files w !! mkPath Slash ["home"; "u"] = Some Fs.Dir
  ∧ Forall (fun q => files w !! q = None) (descent Slash ["home"; "u"] [".git"])
  ∧ files w !! mkPath Slash (["home"; "u"] ++ [".git"] ++ ["config"]) = None
  ∧ performed (_create_symlink s (mkPath Slash (["home"; "u"] ++ [".git"] ++ ["config"])) w).1
    = [SysMkdir (Path_of "/home/u/.git");
       SysSymlink s (Path_of "/home/u/.git/config")].
Proof.
  intros s w.
  assert (Fs.exists_ (files w) s = true) as H1 by (vm_compute; reflexivity).
  assert (files w !! mkPath Slash ["home"; "u"] = Some Fs.Dir) as H2
    by (vm_compute; reflexivity).
  assert (Forall (fun q => files w !! q = None) (descent Slash ["home"; "u"] [".git"])) as H3
    by (repeat constructor; vm_compute; reflexivity).
  assert (files w !! mkPath Slash (["home"; "u"] ++ [".git"] ++ ["config"]) = None) as H4
    by (vm_compute; reflexivity).
  repeat (split; [assumption|]).
  rewrite (first_link_makes_parents_then_link s Slash ["home"; "u"] [".git"] "config"
             w H1 H2 H3 H4).
  reflexivity.
Defined.

(** ** The two ways to select *)

Lemma filter_iff_in {A} (P Q : A → Prop) `{∀ x, Decision (P x)} `{∀ x, Decision (Q x)}
    (l : list A) :
  (∀ x, x ∈ l → P x ↔ Q x) → filter P l = filter Q l.
Proof.
  induction l as [|a l IH]; intros Hpq; [done|].
  rewrite !filter_cons, IH by (intros x Hx; apply Hpq; by right).
  destruct (decide (P a)) as [Ha|Ha], (decide (Q a)) as [Hb|Hb]; try done.
  - destruct Hb. apply Hpq; [left|done].
  - destruct Ha. apply Hpq; [left|done].
Qed.

Lemma selection_specific_keys self exclude :
  selection_specific self (keys (config_mapping self)) exclude
  = selection_all self exclude.
Proof.
  unfold selection_specific, selection_all. apply filter_iff_in.
  intros n Hn. split; [by intros [_ ?]|]. intros Hex. split; [|done].
  apply Is_true_true, dict_in_get. by apply dict_get_keys.
Qed.

Lemma selection_specific_filter self dotfiles (ex1 ex2 : gset string) :
  selection_specific self dotfiles (ex1 ∪ ex2)
  = selection_specific self (filter (fun n => n ∉ ex1) dotfiles) ex2.
Proof.
  unfold selection_specific. rewrite list_filter_filter.
  apply list_filter_iff. intros n. rewrite not_elem_of_union. tauto.
Qed.

(** X6.  [symlink_all] is [symlink_specific] asked for every name of the
    table, in the order of the table: same result, same files, same
    output and same system calls, whatever is excluded. *)
Theorem symlink_all_is_symlink_specific_on_the_table
    (self : DotfilesManager) (exclude : option (gset string)) (w : World) :
  symlink_all self exclude w
  = symlink_specific self (keys (config_mapping self)) exclude w.
Proof.
  unfold symlink_all, symlink_specific. cbv zeta.
  by rewrite selection_specific_keys.
Qed.

(** X7.  Excluding names is the same as not asking for them: a request
    with exclusions runs as the request without the excluded names and no
    exclusion does, and two sets of exclusions can be applied one after
    the other.  No exclusion at all ([None]) is the empty set. *)
Theorem exclusion_filters_the_request
    (self : DotfilesManager) (dotfiles : list string) (ex1 ex2 : gset string)
    (w : World) :
  symlink_specific self dotfiles (Some ex1) w
  = symlink_specific self (filter (fun n => n ∉ ex1) dotfiles) None w
  ∧ symlink_specific self dotfiles (Some (ex1 ∪ ex2)) w
    = symlink_specific self (filter (fun n => n ∉ ex1) dotfiles) (Some ex2) w
  ∧ symlink_all self (Some ex1) w
    = symlink_specific self
        (filter (fun n => n ∉ ex1) (keys (config_mapping self))) None w.
Proof.
  assert (∀ l, selection_specific self l ex1
               = selection_specific self (filter (fun n => n ∉ ex1) l) ∅) as H1.
  { intros l. rewrite <- selection_specific_filter. by rewrite (right_id_L ∅ (∪)). }
  split; [|split].
  - unfold symlink_specific. cbv zeta. simpl or_empty. by rewrite H1.
  - unfold symlink_specific. cbv zeta. simpl or_empty.
    by rewrite selection_specific_filter.
  - unfold symlink_all, symlink_specific. cbv zeta. simpl or_empty.
    by rewrite <- H1, selection_specific_keys.
Qed.

(** ** The exceptions that can leave the loop *)

Lemma create_symlink_raises s t w w' e :
  _create_symlink s t w = (w', Raise e) →
  (∃ en f g, e = OSError en f g) ∨ (∃ msg, e = ValueError msg ∧ name t = "").
Proof.
  intros H. unfold _create_symlink in H. rewrite run_bind in H.
  unfold exists_ at 1, ask in H.
  destruct (Fs.exists_ (files w) s) eqn:Hs; simpl in H; [|done].
  rewrite run_bind in H.
  destruct (mkdir_parents (parent t) w) as [w1 [[]|e1]] eqn:E1;
    destruct (quiet_mkdir_parents _ _ _ _ E1) as [Ho1 He1].
  2: { injection H as <- <-. left. by apply He1. }
  rewrite run_bind in H. unfold exists_, ask in H. rewrite run_bind in H.
  destruct (Fs.exists_ (files w1) t) eqn:Ht.
  2: { rewrite run_ret in H. by apply link_step in H as [[=] _]. }
  rewrite run_bind in H. unfold is_symlink, ask in H.
  destruct (Fs.is_symlink (files w1) t) eqn:Hl.
  - destruct (unlink t w1) as [w2 [[]|e2]] eqn:E2;
      destruct (quiet_syscall _ _ _ _ _ _ _ E2) as [Ho2 He2].
    + by apply link_step in H as [[=] _].
    + injection H as <- <-. left. by apply He2.
  - rewrite run_bind in H. unfold with_suffix in H.
    destruct (Pathlib.with_suffix t ".backup") as [err|b] eqn:Hb.
    + right. destruct err; injection H as <- <-; eexists;
        (split; [done|]); by eapply with_suffix_inl.
    + rewrite run_ret, run_bind, run_info in H.
      destruct (rename t b _) as [w2 [[]|e2]] eqn:E2;
        destruct (quiet_syscall _ _ _ _ _ _ _ E2) as [Ho2 He2].
      * by apply link_step in H as [[=] _].
      * injection H as <- <-. left. by apply He2.
Qed.

Lemma link_each_raises_kind self sel : ∀ w w' e,
  Forall (fun n => is_Some (dict_get (config_mapping self) n)) sel →
  link_each self sel w = (w', Raise e) →
  (∃ en f g, e = OSError en f g) ∨ (∃ msg, e = ValueError msg).
Proof.
  induction sel as [|n rest IH]; intros w w' e Hall; [done|].
  apply Forall_cons in Hall as [[m Hm] Hall].
  rewrite link_each_cons, Hm.
  destruct (_create_symlink (source m) (target m) w) as [w1 [[]|e1]] eqn:E1.
  - by apply IH.
  - intros [= <- <-].
    destruct (create_symlink_raises _ _ _ _ _ E1) as [?|(msg & -> & _)]; eauto.
Qed.

Lemma selection_all_known self exclude :
  Forall (fun n => is_Some (dict_get (config_mapping self) n))
         (selection_all self exclude).
Proof.
  apply Forall_forall. intros n [_ Hn]%list_elem_of_filter. by apply dict_get_keys.
Qed.

Lemma selection_specific_known_names self dotfiles exclude :
  Forall (fun n => is_Some (dict_get (config_mapping self) n))
         (selection_specific self dotfiles exclude).
Proof.
  apply Forall_forall. intros n [[Hn _] _]%list_elem_of_filter.
  by apply dict_in_get, Is_true_true.
Qed.

(** X8.  Whatever the table and the request, [symlink_all] and
    [symlink_specific] fail only with a [ValueError] or an [OSError]: the
    lookup [self.config_mapping[dotfile]] of the loop never raises
    [KeyError], because every name that reaches it was taken from the
    table or checked against it. *)
Theorem lookup_in_the_loop_never_fails
    (self : DotfilesManager) (dotfiles : list string)
    (exclude : option (gset string)) (w : World) :
  let ok (r : Outcome unit) :=
    match r with
    | Return _ => True
    | Raise e => (∃ en f g, e = OSError en f g) ∨ (∃ msg, e = ValueError msg)
    end in
  ok (symlink_all self exclude w).2 ∧ ok (symlink_specific self dotfiles exclude w).2.
Proof.
  intros ok. split.
  - unfold symlink_all. cbv zeta. rewrite run_bind.
    destruct (decide (duplicates self (selection_all self (or_empty exclude)) = []))
      as [Hd|Hd].
    + rewrite check_passes by done.
      destruct (link_each _ _ w) as [w' [[]|e]] eqn:E; simpl; [done|].
      eapply link_each_raises_kind; [|exact E]. apply selection_all_known.
    + rewrite check_fails by done. simpl. eauto.
  - unfold symlink_specific. cbv zeta. rewrite run_bind.
    destruct (decide (duplicates self
                        (selection_specific self dotfiles (or_empty exclude)) = []))
      as [Hd|Hd].
    + rewrite check_passes by done.
      destruct (link_each _ _ w) as [w' [[]|e]] eqn:E; simpl; [done|].
      eapply link_each_raises_kind; [|exact E]. apply selection_specific_known_names.
    + rewrite check_fails by done. simpl. eauto.
Qed.

(** ** How [main] ends *)

(** [main] after [__init__]: the guarded part runs in the world it was
    given, the warning for the platform written. *)
Lemma main_start h d args w :
  main h d args w
  = let self := manager_of h d in
    try_except
      (if args_all args then symlink_all self (Some (exclude_of args))
       else match given (args_limit args) with
            | Some l =>
                symlink_specific self (Str.strip <$> Str.split "," l)
                                 (Some (exclude_of args))
            | None => emit Help ;; raise (SystemExit 1)
            end)
      (fun e => match e with
                | ValueError _ =>
                    Some (logger.error (ErrorMsg e) ;; raise (SystemExit 1))
                | _ => None
                end)
      (mkWorld (files w) (stdout w ++ startup_lines h) (performed w)).
Proof.
  destruct (init_run h d w) as (w1 & Hinit & Hf & Hp & Ho).
  unfold main. rewrite run_bind, Hinit.
  destruct w1 as [f1 o1 p1]. simpl in Hf, Hp, Ho. subst f1 p1 o1. done.
Qed.

(** The guarded part of [main] on a selection: it returns, or the check
    failed and [sys.exit(1)] follows the error line with nothing done, or
    an [OSError] passes through. *)
Lemma guarded_ends self sel (body : M unit) w1 :
  Forall (named self) sel →
  (duplicates self sel = [] → body w1 = link_each self sel w1) →
  (duplicates self sel ≠ [] →
   body w1 = (w1, Raise (ValueError (error_msg (duplicates self sel))))) →
  let run :=
    try_except body
      (fun e => match e with
                | ValueError _ =>
                    Some (logger.error (ErrorMsg e) ;; raise (SystemExit 1))
                | _ => None
                end) w1 in
  (run.2 = Return tt ∧ duplicates self sel = [])
  ∨ (run = (mkWorld (files w1)
                    (stdout w1 ++ [Log ERROR (ErrorMsg (ValueError
                                                 (error_msg (duplicates self sel))))])
                    (performed w1),
            Raise (SystemExit 1))
     ∧ duplicates self sel ≠ [])
  ∨ (∃ en f g, run.2 = Raise (OSError en f g)).
Proof.
  intros Hnamed Hpass Hfail run. unfold run, try_except.
  destruct (decide (duplicates self sel = [])) as [Hd|Hd].
  - rewrite (Hpass Hd).
    destruct (link_each self sel w1) as [w2 [[]|e]] eqn:E.
    + left. done.
    + destruct (link_each_raises _ _ _ _ _ Hnamed E) as (en & f & g & ->).
      right. right. simpl. eauto.
  - rewrite (Hfail Hd). right. left. done.
Qed.

(** X9.  Once the arguments are parsed, [main] ends in one of three
    ways, whatever the host, the arguments and the filesystem: it
    returns (exit status 0); or it
    leaves through [sys.exit(1)], and then no system call was made and
    the files are as they were; or an [OSError] escapes from the creation
    of the directories, the removal of a link or the backup rename.  No
    [ValueError] and no [KeyError] ever leaves [main]. *)
Theorem main_ends_in_one_of_three_ways
    (h : Host) (d : Path) (args : Args) (w : World) :
  let run := main h d args w in
  (run.2 = Return tt ∧ exit_status run.2 = 0)
  ∨ (run.2 = Raise (SystemExit 1)
     ∧ files run.1 = files w ∧ performed run.1 = performed w)
  ∨ (∃ en f g, run.2 = Raise (OSError en f g) ∧ exit_status run.2 = 1).
Proof.
  intros run. unfold run. rewrite main_start. cbv zeta.
  set (self := manager_of h d).
  set (w1 := mkWorld (files w) (stdout w ++ startup_lines h) (performed w)).
  destruct (args_all args).
  - destruct (guarded_ends self (selection_all self (exclude_of args))
                (symlink_all self (Some (exclude_of args))) w1)
      as [[-> _]|[[-> _]|(en & f & g & ->)]].
    + apply selection_all_named.
    + intros Hd. by apply symlink_all_passed.
    + intros Hd. by apply symlink_all_collision.
    + by left.
    + right. left. done.
    + right. right. exists en, f, g. done.
  - destruct (given (args_limit args)) as [l|].
    + destruct (guarded_ends self
                  (selection_specific self (Str.strip <$> Str.split "," l)
                                      (exclude_of args))
                  (symlink_specific self (Str.strip <$> Str.split "," l)
                                    (Some (exclude_of args))) w1)
        as [[-> _]|[[-> _]|(en & f & g & ->)]].
      * apply selection_specific_named.
      * intros Hd. by apply symlink_specific_passed.
      * intros Hd. by apply symlink_specific_collision.
      * by left.
      * right. left. done.
      * right. right. exists en, f, g. done.
    + right. left. done.
Qed.

(** X10.  Without [--all] and without a [--limit] that is not empty
    ([--limit ''] counts as none), [main] prints the help and leaves
    through [sys.exit(1)]: the manager is built, so the warning for an
    unsupported platform may come first, and nothing else is written or
    done. *)
Theorem main_without_selection_prints_help
    (h : Host) (d : Path) (args : Args) (w : World) :
  args_all args = false →
  given (args_limit args) = None →
  main h d args w
  = (mkWorld (files w) (stdout w ++ startup_lines h ++ [Help]) (performed w),
     Raise (SystemExit 1)).
Proof.
  intros Ha Hl. rewrite main_start. cbv zeta. rewrite Ha, Hl.
  unfold try_except. rewrite run_bind. simpl. by rewrite <- app_assoc.
Qed.

Lemma main_without_selection_prints_help_witness :
  let args := mkArgs false (Some "") (Some "git") None in
  args_all args = false
  ∧ given (args_limit args) = None
  ∧ main Sample.host Sample.script_dir args (Sample.world Sample.tree)
    = (mkWorld (files (Sample.world Sample.tree))
               (stdout (Sample.world Sample.tree) ++ startup_lines Sample.host ++ [Help])
               (performed (Sample.world Sample.tree)),
       Raise (SystemExit 1)).
Proof.
  intros args. split; [reflexivity|]. split; [reflexivity|].
  exact (main_without_selection_prints_help Sample.host Sample.script_dir args
           (Sample.world Sample.tree) eq_refl eq_refl).
Defined.

(** X11.  With the table of the script, [--all] cannot succeed unless
    one of [nvim-plugins] and [nvim-no-plugins] is excluded: on every
    host and filesystem [main] writes the error of the check, leaves
    through [sys.exit(1)], and has made no system call. *)
Theorem main_all_needs_an_nvim_exclusion
    (h : Host) (d : Path) (args : Args) (w : World) :
  args_all args = true →
  "nvim-plugins" ∉ exclude_of args →
  "nvim-no-plugins" ∉ exclude_of args →
  let self := manager_of h d in
  let sel := selection_all self (exclude_of args) in
  main h d args w
  = (mkWorld (files w)
             (stdout w ++ startup_lines h
              ++ [Log ERROR (ErrorMsg (ValueError (error_msg (duplicates self sel))))])
             (performed w),
     Raise (SystemExit 1)).
Proof.
  intros Ha Hn1 Hn2 self sel. rewrite main_start. cbv zeta. rewrite Ha.
  fold self.
  assert (duplicates self sel ≠ []) as Hd.
  { apply collides_duplicates.
    apply (collides_of_elems self _ "nvim-plugins" "nvim-no-plugins"
             (config_dir self </> "nvim")); try done.
    - apply list_elem_of_filter. split; [done|]. simpl.
      do 6 right. left.
    - apply list_elem_of_filter. split; [done|]. simpl.
      do 7 right. left. }
  unfold try_except. rewrite symlink_all_collision by done.
  rewrite run_bind. simpl. by rewrite <- app_assoc.
Qed.

Lemma main_all_needs_an_nvim_exclusion_witness :
  let args := mkArgs true None (Some "git,tmux") None in
  args_all args = true
  ∧ ("nvim-plugins" ∉ exclude_of args)
  ∧ ("nvim-no-plugins" ∉ exclude_of args)
  ∧ (main Sample.host Sample.script_dir args (Sample.world Sample.tree)).2
    = Raise (SystemExit 1).
Proof.
  intros args.
  assert (∀ n, bool_decide (n ∈ Str.split "," "git,tmux") = false → n ∉ exclude_of args)
    as Hout.
  { intros n Hn. change (exclude_of args)
      with (list_to_set (Str.split "," "git,tmux") : gset string).
    rewrite elem_of_list_to_set. by apply bool_decide_eq_false in Hn. }
  assert ("nvim-plugins" ∉ exclude_of args) as H1 by (apply Hout; reflexivity).
  assert ("nvim-no-plugins" ∉ exclude_of args) as H2 by (apply Hout; reflexivity).
  split; [reflexivity|]. split; [exact H1|]. split; [exact H2|].
  rewrite (main_all_needs_an_nvim_exclusion Sample.host Sample.script_dir args
             (Sample.world Sample.tree) eq_refl H1 H2).
  reflexivity.
Defined.

(** ** A target that is a link to another place *)

(** X12.  The source exists and the target is a working symlink, to any
    place: [_create_symlink] unlinks it and links the target to the
    source.  No backup is made and no line tells where the link pointed;
    every other path, the old referent among them, is as it was. *)
Theorem working_link_replaced_without_backup
    (s t old : Path) (w : World) :
  Fs.exists_ (files w) s = true →
  files w !! t = Some (Fs.Symlink old) →
  Fs.exists_ (files w) t = true →
  files w !! parent t = Some Fs.Dir →
  _create_symlink s t w
  = (mkWorld (<[t := Fs.Symlink s]> (files w))
             (stdout w ++ [Log INFO (CreatedSymlink t s)])
             (performed w ++ [SysUnlink t; SysSymlink s t]),
     Return tt).
Proof.
  intros Hs Hl Ht Hp.
  assert (parent t ≠ t) as Hne by (eapply parent_neq; eauto; done).
  unfold _create_symlink. rewrite run_bind. unfold exists_ at 1, ask. rewrite Hs. simpl.
  rewrite run_bind, mkdir_parents_is_dir by by apply is_dir_of_lookup.
  rewrite run_bind. unfold exists_, ask. rewrite Ht.
  rewrite run_bind. rewrite run_bind. unfold is_symlink, ask, Fs.is_symlink, Fs.lstat.
  rewrite Hl. unfold unlink, syscall, Fs.unlink. rewrite Hl. simpl.
  unfold try_except. rewrite run_bind. unfold symlink_to, syscall, Fs.symlink. simpl.
  rewrite lookup_delete_eq. unfold Fs.dir_for.
  rewrite (stat_lookup_dir _ (parent t)) by by rewrite lookup_delete_ne.
  simpl. unfold logger.info, emit. simpl.
  rewrite insert_delete_eq. by rewrite <- app_assoc.
Qed.

Lemma working_link_replaced_without_backup_witness :
  let s := Path_of "/d/tmux/tmux.conf" in
  let t := Path_of "/home/u/tmux/tmux.conf" in
  let w := Sample.world Sample.tree_foreign_link in
  Fs.exists_ (files w) s = true
  ∧ files w !! t = Some (Fs.Symlink (Path_of "/d/git/config"))
  ∧ Fs.exists_ (files w) t = true
  ∧ files w !! parent t = Some Fs.Dir
  ∧ performed (_create_symlink s t w).1 = [SysUnlink t; SysSymlink s t].
Proof.
  intros s t w.
  assert (Fs.exists_ (files w) s = true) as H1 by (vm_compute; reflexivity).
  assert (files w !! t = Some (Fs.Symlink (Path_of "/d/git/config"))) as H2
    by (vm_compute; reflexivity).
  assert (Fs.exists_ (files w) t = true) as H3 by (vm_compute; reflexivity).
  assert (files w !! parent t = Some Fs.Dir) as H4 by (vm_compute; reflexivity).
  repeat (split; [assumption|]).
  rewrite (working_link_replaced_without_backup s t (Path_of "/d/git/config") w
             H1 H2 H3 H4).
  reflexivity.
Defined.

(** ** A backup that cannot be made *)

Lemma fs_rename_onto_dir (fs : Fs.t) t b c :
  fs !! t = Some (Fs.File c) →
  fs !! parent b = Some Fs.Dir →
  fs !! b = Some Fs.Dir →
  Fs.rename fs t b = inl Fs.EISDIR.
Proof.
  intros Ht Hp Hb. unfold Fs.rename, Fs.dir_for.
  rewrite Ht, (stat_lookup_dir _ _ Hp), bool_decide_eq_false_2 by congruence.
  by rewrite Hb.
Qed.

Lemma create_symlink_backup_is_dir s t c b w :
  Fs.exists_ (files w) s = true →
  files w !! t = Some (Fs.File c) →
  files w !! parent t = Some Fs.Dir →
  Pathlib.with_suffix t ".backup" = inr b →
  files w !! b = Some Fs.Dir →
  _create_symlink s t w
  = (mkWorld (files w) (stdout w ++ [Log INFO (BackingUp t b)]) (performed w),
     Raise (OSError Fs.EISDIR t (Some b))).
Proof.
  intros Hs Ht Hp Hb Hd.
  unfold _create_symlink. rewrite run_bind. unfold exists_ at 1, ask. rewrite Hs. simpl.
  rewrite run_bind, mkdir_parents_is_dir by by apply is_dir_of_lookup.
  rewrite run_bind. unfold exists_, ask. rewrite (exists_of_file _ _ _ Ht).
  rewrite run_bind. rewrite run_bind. unfold is_symlink, ask, Fs.is_symlink, Fs.lstat.
  rewrite Ht. rewrite run_bind. unfold with_suffix. rewrite Hb.
  rewrite run_ret, run_bind, run_info.
  unfold rename. erewrite run_syscall_err; [done|].
  cbv beta. simpl files. apply (fs_rename_onto_dir _ _ _ c); try done.
  by rewrite (with_suffix_parent _ _ _ Hb).
Qed.

(** X13.  The source exists, the target is a regular file, and the path
    of its backup is a directory.  [_create_symlink] writes that it backs
    the target up, then the rename fails: the [IsADirectoryError] is not
    caught, no file was touched, and the loop ends there, the rest of the
    selection not handled. *)
Theorem backup_onto_directory_stops_the_run
    (self : DotfilesManager) (name : string) (m : Mapping) (c : string) (b : Path)
    (rest : list string) (w : World) :
  dict_get (config_mapping self) name = Some m →
  Fs.exists_ (files w) (source m) = true →
  files w !! target m = Some (Fs.File c) →
  files w !! parent (target m) = Some Fs.Dir →
  Pathlib.with_suffix (target m) ".backup" = inr b →
  files w !! b = Some Fs.Dir →
  let stopped :=
    (mkWorld (files w) (stdout w ++ [Log INFO (BackingUp (target m) b)]) (performed w),
     @Raise unit (OSError Fs.EISDIR (target m) (Some b))) in
  _create_symlink (source m) (target m) w = stopped
  ∧ link_each self (name :: rest) w = stopped.
Proof.
  intros Hm Hs Ht Hp Hb Hd stopped.
  pose proof (create_symlink_backup_is_dir _ _ _ _ _ Hs Ht Hp Hb Hd) as Hrun.
  split; [done|]. by rewrite link_each_cons, Hm, Hrun.
Qed.

Lemma backup_onto_directory_stops_the_run_witness :
  let m := mkMapping (Path_of "/d/tmux/tmux.conf") (Path_of "/home/u/tmux/tmux.conf") in
  let b := Path_of "/home/u/tmux/tmux.backup" in
  let w := Sample.world Sample.tree_backup_dir in
  dict_get (config_mapping Sample.manager) "tmux" = Some m
  ∧ Fs.exists_ (files w) (source m) = true
  ∧ files w !! target m = Some (Fs.File "old")
  ∧ files w !! parent (target m) = Some Fs.Dir
  ∧ Pathlib.with_suffix (target m) ".backup" = inr b
  ∧ files w !! b = Some Fs.Dir
  ∧ (link_each Sample.manager ["tmux"; "git"] w).2
    = Raise (OSError Fs.EISDIR (target m) (Some b)).
Proof.
  intros m b w.
  assert (dict_get (config_mapping Sample.manager) "tmux" = Some m) as H1 by reflexivity.
  assert (Fs.exists_ (files w) (source m) = true) as H2 by (vm_compute; reflexivity).
  assert (files w !! target m = Some (Fs.File "old")) as H3 by (vm_compute; reflexivity).
  assert (files w !! parent (target m) = Some Fs.Dir) as H4 by (vm_compute; reflexivity).
  assert (Pathlib.with_suffix (target m) ".backup" = inr b) as H5
    by (vm_compute; reflexivity).
  assert (files w !! b = Some Fs.Dir) as H6 by (vm_compute; reflexivity).
  repeat (split; [assumption|]).
  rewrite (proj2 (backup_onto_directory_stops_the_run Sample.manager "tmux" m "old" b
                    ["git"] w H1 H2 H3 H4 H5 H6)).
  reflexivity.
Defined.

(** ** What one entry can touch *)

Lemma mkdir_parents_run p w w' r :
  mkdir_parents p w = (w', r) → ∃ made, makes_dirs p w w' made.
Proof.
  unfold mkdir_parents. intros H.
  destruct (mkdir_parents_from_run _ _ _ _ _ H) as (made & Hm & _).
  rewrite rev_involutive, path_eta in Hm. by exists made.
Qed.

Lemma unlink_frame t w w' r q :
  unlink t w = (w', r) → q ≠ t → files w' !! q = files w !! q.
Proof.
  unfold unlink, syscall, Fs.unlink. intros H Hq.
  destruct (files w !! t) as [[]|]; injection H as <- <-; simpl;
    by rewrite ?lookup_delete_ne.
Qed.

Lemma rename_frame t b w w' r q :
  rename t b w = (w', r) → files w !! t ≠ Some Fs.Dir → q ≠ t → q ≠ b →
  files w' !! q = files w !! q.
Proof.
  unfold rename, syscall, Fs.rename. intros H Hnd Hqt Hqb.
  destruct (files w !! t) as [nd|]; [|by injection H as <- <-].
  destruct (Fs.dir_for (files w) b); [by injection H as <- <-|].
  case_bool_decide; [by injection H as <- <-|].
  destruct nd; [|done|];
    destruct (files w !! b) as [[]|]; injection H as <- <-; simpl;
    by rewrite ?lookup_insert_ne, ?lookup_delete_ne.
Qed.

Lemma link_step_frame s t w w' r q :
  try_except
    (symlink_to t s ;; logger.info (CreatedSymlink t s))
    (fun e => if is_Exception e
              then Some (logger.error (ErrorCreating t e))
              else None) w = (w', r) →
  q ≠ t → files w' !! q = files w !! q.
Proof.
  unfold try_except. rewrite run_bind. unfold symlink_to, syscall, Fs.symlink.
  intros H Hq.
  destruct (files w !! t); [by injection H as <- <-|].
  destruct (Fs.dir_for (files w) t); injection H as <- <-; simpl;
    by rewrite ?lookup_insert_ne.
Qed.

Lemma create_symlink_frame s r base extra nm w w' res q :
  let t := mkPath r (base ++ extra ++ [nm]) in
  _create_symlink s t w = (w', res) →
  files w !! mkPath r base = Some Fs.Dir →
  Forall (fun d => files w !! d = None) (descent r base extra) →
  files w !! t ≠ Some Fs.Dir →
  q ≠ t →
  Pathlib.with_suffix t ".backup" ≠ inr q →
  files w' !! q
  = if bool_decide (q ∈ descent r base extra) && Fs.exists_ (files w) s
    then Some Fs.Dir else files w !! q.
Proof.
  intros t H Hb Hall Hnd Hqt Hqb.
  assert (parent t = mkPath r (base ++ extra)) as Hpar.
  { unfold t. rewrite app_assoc. apply parent_snoc. }
  unfold _create_symlink in H. rewrite run_bind in H.
  unfold exists_ at 1, ask in H.
  destruct (Fs.exists_ (files w) s) eqn:Hs; simpl in H.
  2: { injection H as <- <-. by rewrite andb_false_r. }
  rewrite andb_true_r. rewrite run_bind, Hpar in H.
  unfold mkdir_parents in H. simpl root in H. simpl parts in H.
  rewrite mkdir_parents_from_descent in H by done.
  set (w1 := mkWorld (with_dirs (files w) (descent r base extra)) (stdout w)
                     (performed w ++ (SysMkdir <$> descent r base extra))) in H.
  assert (files w1 !! q
          = if bool_decide (q ∈ descent r base extra)
            then Some Fs.Dir else files w !! q) as H1.
  { simpl. case_bool_decide.
    - by apply with_dirs_lookup_in.
    - by apply with_dirs_lookup_out. }
  assert (files w1 !! t ≠ Some Fs.Dir) as Hnd1.
  { simpl. rewrite with_dirs_lookup_out by apply descent_not_below. done. }
  rewrite <- H1. clear H1. clearbody w1.
  rewrite run_bind in H. unfold exists_, ask in H. rewrite run_bind in H.
  destruct (Fs.exists_ (files w1) t) eqn:Ht.
  2: { rewrite run_ret in H. by eapply link_step_frame. }
  rewrite run_bind in H. unfold is_symlink, ask in H.
  destruct (Fs.is_symlink (files w1) t) eqn:Hl.
  - destruct (unlink t w1) as [w2 [[]|e2]] eqn:E2.
    + etrans; [by eapply link_step_frame|by eapply unlink_frame].
    + injection H as <- <-. by eapply unlink_frame.
  - rewrite run_bind in H. unfold with_suffix in H.
    destruct (Pathlib.with_suffix t ".backup") as [err|b] eqn:Hbk.
    { by destruct err; injection H as <- <-. }
    rewrite run_ret, run_bind, run_info in H.
    assert (q ≠ b) as Hqb' by congruence.
    destruct (rename t b _) as [w2 [[]|e2]] eqn:E2.
    + etrans; [by eapply link_step_frame|].
      by rewrite (rename_frame _ _ _ _ _ q E2).
    + injection H as <- <-. by rewrite (rename_frame _ _ _ _ _ q E2).
Qed.

(** X14.  What [_create_symlink] can touch.  The target
    [base/x1/.../xn/name] is not a directory, [base] is a directory and
    nothing is at the directories [base/x1], ..., [base/x1/.../xn] on the
    way down to it (with [n = 0], the target lies in the directory
    [base]); no component below [base] is [..], so that the target names
    its own node.  Then, apart from the target and the path of its backup,
    every path holds after the call what it held before, but for these
    missing directories, which are made when the source exists.  So the
    source, and every other file, link and directory of the machine, is
    never removed, renamed or overwritten, also when the call fails. *)
Theorem create_symlink_touches_only_its_own_paths
    (s : Path) (r : Root) (base extra : list string) (nm : string)
    (q : Path) (w : World) :
  let t := mkPath r (base ++ extra ++ [nm]) in
  files w !! mkPath r base = Some Fs.Dir →
  Forall (fun d => files w !! d = None) (descent r base extra) →
  ".." ∉ extra ++ [nm] →
  files w !! t ≠ Some Fs.Dir →
  q ≠ t →
  Pathlib.with_suffix t ".backup" ≠ inr q →
  files (_create_symlink s t w).1 !! q
  = if bool_decide (q ∈ descent r base extra) && Fs.exists_ (files w) s
    then Some Fs.Dir else files w !! q.
Proof.
  intros t Hb Hall _ Hnd Hqt Hqb.
  by apply (create_symlink_frame s r base extra nm w
              (_create_symlink s t w).1 (_create_symlink s t w).2);
    [apply surjective_pairing| | | | |].
Qed.

Lemma create_symlink_touches_only_its_own_paths_witness :
  let s := Path_of "/d/tmux/tmux.conf" in
  let w := Sample.world Sample.tree in
  let t := mkPath Slash (["home"; "u"; "tmux"] ++ [] ++ ["tmux.conf"]) in
  files w !! mkPath Slash ["home"; "u"; "tmux"] = Some Fs.Dir
  ∧ Forall (fun d => files w !! d = None) (descent Slash ["home"; "u"; "tmux"] [])
  ∧ (".." ∉ [] ++ ["tmux.conf"])
  ∧ files w !! t ≠ Some Fs.Dir
  ∧ s ≠ t
  ∧ Pathlib.with_suffix t ".backup" ≠ inr s
  ∧ files (_create_symlink s t w).1 !! s = Some (Fs.File "new").
Proof.
  intros s w t.
  assert (files w !! mkPath Slash ["home"; "u"; "tmux"] = Some Fs.Dir) as H0
    by (vm_compute; reflexivity).
  assert (Forall (fun d => files w !! d = None) (descent Slash ["home"; "u"; "tmux"] []))
    as H0' by constructor.
  assert (".." ∉ [] ++ ["tmux.conf"]) as Hdots
    by (intros [Hin|Hin%elem_of_nil]%elem_of_cons; [discriminate Hin|done]).
  assert (files w !! t ≠ Some Fs.Dir) as H1 by (vm_compute; discriminate).
  assert (s ≠ t) as H2 by (vm_compute; discriminate).
  assert (Pathlib.with_suffix t ".backup" ≠ inr s) as H3 by (vm_compute; discriminate).
  repeat (split; [assumption|]).
  etrans.
  - exact (create_symlink_touches_only_its_own_paths s Slash ["home"; "u"; "tmux"] []
             "tmux.conf" s w H0 H0' Hdots H1 H2 H3).
  - vm_compute. reflexivity.
Defined.

(** ** The table of the script *)

(** The table with every path spelled out. *)
Lemma load_config_mapping_parts d h c :
  _load_config_mapping d h c
  = [ ("bashrc",
        mkMapping (mkPath (root d) (parts d ++ ["bashrc"]))
                  (mkPath (root h) (parts h ++ [".bashrc"])));
      ("bash_aliases",
        mkMapping (mkPath (root d) (parts d ++ ["bash_aliases"]))
                  (mkPath (root h) (parts h ++ [".bash_aliases"])));
      ("bash_env",
        mkMapping (mkPath (root d) (parts d ++ ["bash_env"]))
                  (mkPath (root h) (parts h ++ [".bash_env"])));
      ("npmrc",
        mkMapping (mkPath (root d) (parts d ++ ["npmrc"]))
                  (mkPath (root h) (parts h ++ [".npmrc"])));
      ("git",
        mkMapping (mkPath (root d) ((parts d ++ ["git"]) ++ ["config"]))
                  (mkPath (root h) ((parts h ++ [".git"]) ++ ["config"])));
      ("tmux",
        mkMapping (mkPath (root d) ((parts d ++ ["tmux"]) ++ ["tmux.conf"]))
                  (mkPath (root h) ((parts h ++ ["tmux"]) ++ ["tmux.conf"])));
      ("nvim-plugins",
        mkMapping (mkPath (root d) (parts d ++ ["nvim-plugins"]))
                  (mkPath (root c) (parts c ++ ["nvim"])));
      ("nvim-no-plugins",
        mkMapping (mkPath (root d) (parts d ++ ["nvim-no-plugins"]))
                  (mkPath (root c) (parts c ++ ["nvim"])));
      ("vscode",
        mkMapping (mkPath (root d) ((parts d ++ ["vscode"]) ++ ["settings.json"]))
                  (mkPath (root c)
                          (((parts c ++ ["Code"]) ++ ["User"]) ++ ["settings.json"])));
      ("cursor",
        mkMapping (mkPath (root d) ((parts d ++ ["cursor"]) ++ ["settings.json"]))
                  (mkPath (root c)
                          (((parts c ++ ["Cursor"]) ++ ["User"]) ++ ["settings.json"]))) ].
Proof. reflexivity. Qed.

Lemma above_or_self_snoc q r ps x :
  above_or_self q (mkPath r ps) → above_or_self q (mkPath r (ps ++ [x])).
Proof. intros [Hr Hp]. split; [done|]. simpl in *. by apply prefix_app_r. Qed.

Lemma above_or_self_eta p : above_or_self p (mkPath (root p) (parts p)).
Proof. by split. Qed.

Lemma default_table_under_roots d h c n m :
  dict_get (_load_config_mapping d h c) n = Some m →
  above_or_self d (source m) ∧ source m ≠ d
  ∧ (above_or_self h (target m) ∨ above_or_self c (target m)).
Proof.
  intros H. apply dict_get_elem in H. rewrite load_config_mapping_parts in H.
  repeat (apply elem_of_cons in H as [Heq|H];
          [injection Heq as _ ->; simpl; split;
           [repeat apply above_or_self_snoc; apply above_or_self_eta|];
           split;
           [intros Hd; apply (f_equal (fun p => length (parts p))) in Hd; simpl in Hd;
            rewrite !length_app in Hd; simpl in Hd; lia|];
           first [left; repeat apply above_or_self_snoc; apply above_or_self_eta
                 |right; repeat apply above_or_self_snoc; apply above_or_self_eta]|]).
  by apply elem_of_nil in H.
Qed.

(** X15.  In the table of the script, on any host: every source lies
    below the directory of the script, and every target lies below the
    home directory or below the configuration directory. *)
Theorem default_table_stays_under_its_roots
    (d h c : Path) (n : string) (m : Mapping) :
  dict_get (_load_config_mapping d h c) n = Some m →
  above_or_self d (source m) ∧ source m ≠ d
  ∧ (above_or_self h (target m) ∨ above_or_self c (target m)).
Proof. apply default_table_under_roots. Qed.

Lemma default_table_stays_under_its_roots_witness :
  let m := mkMapping (Path_of "/d/git/config") (Path_of "/home/u/.git/config") in
  dict_get (_load_config_mapping (Path_of "/d") (Path_of "/home/u")
                                 (Path_of "/home/u/.config")) "git" = Some m
  ∧ above_or_self (Path_of "/d") (source m).
Proof.
  intros m.
  assert (dict_get (_load_config_mapping (Path_of "/d") (Path_of "/home/u")
                                         (Path_of "/home/u/.config")) "git" = Some m)
    as H by reflexivity.
  split; [exact H|].
  exact (proj1 (default_table_stays_under_its_roots _ _ _ "git" m H)).
Defined.

(** Two names of the table with one target are one name, or the two
    configurations of nvim. *)
Lemma default_targets_inj d h c n1 n2 m1 m2 :
  dict_get (_load_config_mapping d h c) n1 = Some m1 →
  dict_get (_load_config_mapping d h c) n2 = Some m2 →
  target m1 = target m2 →
  n1 = n2
  ∨ (n1 = "nvim-plugins" ∧ n2 = "nvim-no-plugins")
  ∨ (n1 = "nvim-no-plugins" ∧ n2 = "nvim-plugins").
Proof.
  intros H1 H2. apply dict_get_elem in H1, H2.
  rewrite load_config_mapping_parts in H1, H2.
  repeat (apply elem_of_cons in H1 as [Heq1|H1];
          [injection Heq1 as -> ->;
           repeat (apply elem_of_cons in H2 as [Heq2|H2];
                   [injection Heq2 as -> ->; simpl; intros Ht;
                    first [by left | by right; left | by right; right
                          | exfalso; apply (f_equal parts) in Ht; simpl in Ht; rename Ht into Hp;
                            repeat (apply app_inj_tail in Hp as [Hp Hx];
                                    first [discriminate Hx | clear Hx]) ]|]);
           by apply elem_of_nil in H2|]).
  by apply elem_of_nil in H1.
Qed.

Lemma default_keys_NoDup d h c : NoDup (keys (_load_config_mapping d h c)).
Proof.
  unfold keys, _load_config_mapping. simpl.
  repeat (apply NoDup_cons; split;
          [intros Hin; repeat (apply elem_of_cons in Hin as [Hin|Hin];
                               [discriminate Hin|]);
           by apply elem_of_nil in Hin|]).
  apply NoDup_nil_2.
Qed.

Lemma default_collides d h c sel :
  NoDup sel →
  collides (mkManager d h c (_load_config_mapping d h c)) sel
  ↔ "nvim-plugins" ∈ sel ∧ "nvim-no-plugins" ∈ sel.
Proof.
  intros Hnd. split.
  - intros (i & j & n1 & n2 & t & Hij & Hi & Hj & H1 & H2).
    assert (n1 ≠ n2) as Hne.
    { intros ->. apply Hij. by eapply NoDup_lookup. }
    unfold target_of in H1, H2. cbn [config_mapping] in H1, H2.
    destruct (dict_get (_load_config_mapping d h c) n1) as [m1|] eqn:E1; [|done].
    destruct (dict_get (_load_config_mapping d h c) n2) as [m2|] eqn:E2; [|done].
    cbn [fmap option_fmap option_map] in H1, H2.
    destruct (default_targets_inj _ _ _ _ _ _ _ E1 E2) as [?|[[-> ->]|[-> ->]]];
      [congruence|done| |];
      split; by eapply list_elem_of_lookup_2.
  - intros [Hp Hn].
    by apply (collides_of_elems _ _ "nvim-plugins" "nvim-no-plugins" (c </> "nvim")).
Qed.

(** X16.  In the table of the script the two configurations of nvim are
    the only entries with one target, on any host.  So a request without
    a repeated name passes the check exactly when it does not hold both
    [nvim-plugins] and [nvim-no-plugins], and [symlink_all] passes it
    exactly when one of the two is excluded. *)
Theorem nvim_pair_is_the_only_collision
    (d h c : Path) (w : World) :
  let self := mkManager d h c (_load_config_mapping d h c) in
  (∀ sel, NoDup sel →
     (_check_duplicate_targets self sel w = (w, Return tt)
      ↔ ¬ ("nvim-plugins" ∈ sel ∧ "nvim-no-plugins" ∈ sel)))
  ∧ (∀ ex : gset string,
       _check_duplicate_targets self (selection_all self ex) w = (w, Return tt)
       ↔ "nvim-plugins" ∈ ex ∨ "nvim-no-plugins" ∈ ex).
Proof.
  intros self.
  assert (∀ sel, NoDup sel →
            (_check_duplicate_targets self sel w = (w, Return tt)
             ↔ ¬ ("nvim-plugins" ∈ sel ∧ "nvim-no-plugins" ∈ sel))) as Hsel.
  { intros sel Hnd. rewrite <- (default_collides d h c sel Hnd). fold self.
    destruct (decide (duplicates self sel = [])) as [Hd|Hd].
    - rewrite (check_passes _ _ _ Hd). split; [|done].
      intros _ Hc. by apply collides_duplicates in Hc.
    - rewrite (check_fails _ _ _ Hd). split; [done|].
      intros Hn. destruct Hn. by apply duplicates_collides. }
  split; [exact Hsel|]. intros ex.
  rewrite Hsel by (apply NoDup_filter, default_keys_NoDup).
  unfold selection_all. rewrite !list_elem_of_filter.
  assert ("nvim-plugins" ∈ keys (config_mapping self)) as Hk1
    by (simpl; do 6 right; left).
  assert ("nvim-no-plugins" ∈ keys (config_mapping self)) as Hk2
    by (simpl; do 7 right; left).
  destruct (decide ("nvim-plugins" ∈ ex)), (decide ("nvim-no-plugins" ∈ ex)); tauto.
Qed.

(** ** The system calls of a run *)

Lemma syscall_calls call what f g w w' r :
  syscall call what f g w = (w', r) →
  performed w' = performed w ∨ performed w' = performed w ++ [what].
Proof.
  unfold syscall. destruct (call (files w)); intros [= <- <-]; auto.
Qed.

Lemma link_step_calls s t w w' r :
  try_except
    (symlink_to t s ;; logger.info (CreatedSymlink t s))
    (fun e => if is_Exception e
              then Some (logger.error (ErrorCreating t e))
              else None) w = (w', r) →
  performed w' = performed w ∨ performed w' = performed w ++ [SysSymlink s t].
Proof.
  unfold try_except. rewrite run_bind. unfold symlink_to, syscall.
  destruct (Fs.symlink (files w) s t); intros [= <- <-]; auto.
Qed.

Lemma create_symlink_calls s t w w' r :
  _create_symlink s t w = (w', r) →
  ∃ calls, performed w' = performed w ++ calls
           ∧ Forall (belongs (mkMapping s t)) calls.
Proof.
  intros H. unfold _create_symlink in H. rewrite run_bind in H.
  unfold exists_ at 1, ask in H.
  destruct (Fs.exists_ (files w) s) eqn:Hs; simpl in H.
  2: { injection H as <- <-. exists []. by rewrite app_nil_r. }
  rewrite run_bind in H.
  destruct (mkdir_parents (parent t) w) as [w1 r1] eqn:E1.
  destruct (mkdir_parents_run _ _ _ _ E1) as (made & _ & Hp1 & _ & Hall).
  assert (Forall (belongs (mkMapping s t)) (SysMkdir <$> made)) as Hmade.
  { apply Forall_fmap. eapply Forall_impl; [exact Hall|]. by intros q [? _]. }
  assert (∀ w2 r2, try_except
            (symlink_to t s ;; logger.info (CreatedSymlink t s))
            (fun e => if is_Exception e
                      then Some (logger.error (ErrorCreating t e))
                      else None) w2 = (w', r2) →
          ∀ mid, performed w2 = performed w1 ++ mid →
                 Forall (belongs (mkMapping s t)) mid →
          ∃ calls, performed w' = performed w ++ calls
                   ∧ Forall (belongs (mkMapping s t)) calls) as Hlast.
  { intros w2 r2 [Hl|Hl]%link_step_calls mid Hmid Hb.
    - exists ((SysMkdir <$> made) ++ mid). split.
      + by rewrite Hl, Hmid, Hp1, app_assoc.
      + by apply Forall_app.
    - exists ((SysMkdir <$> made) ++ mid ++ [SysSymlink s t]). split.
      + by rewrite Hl, Hmid, Hp1, !app_assoc.
      + repeat (apply Forall_app; split); try done. by repeat constructor. }
  destruct r1 as [[]|e1].
  2: { injection H as <- <-. by exists (SysMkdir <$> made). }
  rewrite run_bind in H. unfold exists_, ask in H. rewrite run_bind in H.
  destruct (Fs.exists_ (files w1) t) eqn:Ht.
  2: { rewrite run_ret in H. apply (Hlast _ _ H []); [by rewrite app_nil_r|done]. }
  rewrite run_bind in H. unfold is_symlink, ask in H.
  destruct (Fs.is_symlink (files w1) t) eqn:Hl.
  - destruct (unlink t w1) as [w2 [[]|e2]] eqn:E2';
      destruct (syscall_calls _ _ _ _ _ _ _ E2') as [E2|E2].
    + apply (Hlast _ _ H []); [by rewrite app_nil_r|done].
    + apply (Hlast _ _ H [SysUnlink t]); [done|by repeat constructor].
    + injection H as <- <-. exists (SysMkdir <$> made). by rewrite E2.
    + injection H as <- <-. exists ((SysMkdir <$> made) ++ [SysUnlink t]). split.
      * by rewrite E2, Hp1, app_assoc.
      * apply Forall_app. split; [done|by repeat constructor].
  - rewrite run_bind in H. unfold with_suffix in H.
    destruct (Pathlib.with_suffix t ".backup") as [err|b] eqn:Hb.
    { destruct err; injection H as <- <-; by exists (SysMkdir <$> made). }
    rewrite run_ret, run_bind, run_info in H.
    destruct (rename t b _) as [w2 [[]|e2]] eqn:E2';
      destruct (syscall_calls _ _ _ _ _ _ _ E2') as [E2|E2]; simpl in E2.
    + apply (Hlast _ _ H []); [by rewrite app_nil_r|done].
    + apply (Hlast _ _ H [SysRename t b]); [done|by repeat constructor].
    + injection H as <- <-. exists (SysMkdir <$> made). by rewrite E2.
    + injection H as <- <-. exists ((SysMkdir <$> made) ++ [SysRename t b]). split.
      * by rewrite E2, Hp1, app_assoc.
      * apply Forall_app. split; [done|by repeat constructor].
Qed.

Lemma link_each_calls self sel : ∀ w w' r,
  link_each self sel w = (w', r) →
  ∃ calls, performed w' = performed w ++ calls
           ∧ Forall (call_of self (fun n => n ∈ sel)) calls.
Proof.
  induction sel as [|n rest IH]; intros w w' r.
  - intros [= <- <-]. exists []. by rewrite app_nil_r.
  - rewrite link_each_cons.
    destruct (dict_get (config_mapping self) n) as [m|] eqn:Hm.
    2: { intros [= <- <-]. exists []. by rewrite app_nil_r. }
    destruct (_create_symlink (source m) (target m) w) as [w1 r1] eqn:E1.
    destruct (create_symlink_calls _ _ _ _ _ E1) as (c1 & Hp1 & Hb1).
    assert (Forall (call_of self (fun k => k ∈ n :: rest)) c1) as Hc1.
    { eapply Forall_impl; [exact Hb1|]. intros c Hc. exists n, m.
      split; [left|]. split; [done|]. by destruct m. }
    destruct r1 as [[]|e1].
    + intros H. destruct (IH _ _ _ H) as (c2 & Hp2 & Hb2).
      exists (c1 ++ c2). split; [by rewrite Hp2, Hp1, app_assoc|].
      apply Forall_app. split; [done|].
      eapply Forall_impl; [exact Hb2|]. intros c (k & m' & Hk & Hm' & Hc).
      exists k, m'. split; [by right|done].
    + intros [= <- <-]. by exists c1.
Qed.

(** X17.  Every system call of a run is one that an entry of the
    selection asks for: a directory made above its target, its target
    unlinked or renamed to its backup path, or its target linked to its
    source.  For [symlink_specific] that entry is named in the request,
    known to the table and not excluded; for [symlink_all] it is not
    excluded.  (A path these calls act on may also be the target of an
    entry that was left out, when two entries share a target.) *)
Theorem every_call_belongs_to_a_selected_entry
    (self : DotfilesManager) (dotfiles : list string)
    (exclude : option (gset string)) (w : World) :
  (∃ calls,
     performed (symlink_specific self dotfiles exclude w).1 = performed w ++ calls
     ∧ Forall (call_of self (fun n => n ∈ dotfiles ∧ n ∉ or_empty exclude)) calls)
  ∧ (∃ calls,
       performed (symlink_all self exclude w).1 = performed w ++ calls
       ∧ Forall (call_of self (fun n => n ∉ or_empty exclude)) calls).
Proof.
  assert (∀ sel (P : string → Prop), (∀ n, n ∈ sel → P n) →
            ∃ calls,
              performed ((_check_duplicate_targets self sel ;; link_each self sel) w).1
              = performed w ++ calls
              ∧ Forall (call_of self P) calls) as Hrun.
  { intros sel P HP. rewrite run_bind.
    destruct (decide (duplicates self sel = [])) as [Hd|Hd].
    - rewrite check_passes by done.
      destruct (link_each self sel w) as [w' r] eqn:E.
      destruct (link_each_calls _ _ _ _ _ E) as (calls & Hp & Hall).
      exists calls. split; [done|].
      eapply Forall_impl; [exact Hall|]. intros c (n & m & Hn & Hm & Hc).
      exists n, m. auto.
    - rewrite check_fails by done. exists []. by rewrite app_nil_r. }
  split.
  - apply Hrun. intros n [[_ Hex] Hin]%list_elem_of_filter. done.
  - apply Hrun. intros n [Hex _]%list_elem_of_filter. done.
Qed.

(** ** Where the targets are without [CONFIG_DIR] *)

Lemma above_or_self_trans p q r :
  above_or_self p q → above_or_self q r → above_or_self p r.
Proof. intros [H1 H2] [H3 H4]. split; [congruence|by etrans]. Qed.

Lemma above_or_self_joinpath p key :
  root (Path_of key) = NoRoot → above_or_self p (p </> key).
Proof.
  intros H. unfold joinpath. rewrite H. split; [done|]. simpl. by apply prefix_app_r.
Qed.

Lemma default_config_dir_in_home h : above_or_self (Path_home h) (default_config_dir h).
Proof.
  unfold default_config_dir. cbv zeta.
  destruct (String.eqb _ "darwin").
  - eapply above_or_self_trans; by apply above_or_self_joinpath.
  - by apply above_or_self_joinpath.
Qed.

Lemma default_config_dir_normal h : Forall normal_part (parts (default_config_dir h)).
Proof.
  unfold default_config_dir. cbv zeta.
  destruct (String.eqb _ "darwin"); repeat apply joinpath_normal; apply Path_of_normal.
Qed.

(** X18.  Without [CONFIG_DIR] in the environment, on any platform: the
    configuration directory of the manager is the default one, and every
    target of the table lies below the home directory; every source lies
    below the directory of the script. *)
Theorem targets_stay_in_home_without_override
    (h : Host) (d : Path) (n : string) (m : Mapping) :
  environ h !! "CONFIG_DIR" = None →
  dict_get (config_mapping (manager_of h d)) n = Some m →
  config_dir (manager_of h d) = default_config_dir h
  ∧ above_or_self (Path_home h) (target m)
  ∧ above_or_self d (source m).
Proof.
  intros Henv Hm.
  assert (config_dir (manager_of h d) = default_config_dir h) as Hc.
  { unfold manager_of, getenv. cbn [config_dir]. rewrite Henv.
    apply Path_of_str, default_config_dir_normal. }
  split; [done|].
  unfold manager_of in Hm. cbn [config_mapping] in Hm.
  fold (config_dir (manager_of h d)) in Hm.
  destruct (default_table_under_roots _ _ _ _ _ Hm) as (Hs & _ & [Ht|Ht]).
  - done.
  - split; [|done]. eapply above_or_self_trans; [|exact Ht].
    unfold manager_of in Hc. cbn [config_dir] in Hc. rewrite Hc.
    apply default_config_dir_in_home.
Qed.

Lemma targets_stay_in_home_without_override_witness :
  let m := mkMapping (Path_of "/d/vscode/settings.json")
                     (Path_of "/home/u/.config/Code/User/settings.json") in
  environ Sample.host !! "CONFIG_DIR" = None
  ∧ dict_get (config_mapping (manager_of Sample.host Sample.script_dir)) "vscode" = Some m
  ∧ above_or_self (Path_home Sample.host) (target m).
Proof.
  intros m.
  assert (environ Sample.host !! "CONFIG_DIR" = None) as H1 by reflexivity.
  assert (dict_get (config_mapping (manager_of Sample.host Sample.script_dir)) "vscode"
          = Some m) as H2 by reflexivity.
  split; [exact H1|]. split; [exact H2|].
  exact (proj1 (proj2 (targets_stay_in_home_without_override
                         Sample.host Sample.script_dir "vscode" m H1 H2))).
Defined.

(** ** A name asked for twice *)

Lemma collides_repeated self l1 l2 l3 n :
  is_Some (dict_get (config_mapping self) n) →
  collides self (l1 ++ n :: l2 ++ n :: l3).
Proof.
  intros [m Hm].
  exists (length l1), (length (l1 ++ n :: l2)), n, n, (target m).
  split; [rewrite length_app; simpl; lia|].
  split; [apply list_lookup_middle; done|].
  split.
  - change (l1 ++ n :: l2 ++ n :: l3) with (l1 ++ (n :: l2) ++ n :: l3).
    rewrite app_assoc. by apply list_lookup_middle.
  - unfold target_of. by rewrite Hm.
Qed.

(** X19.  A known name that is not excluded and is asked for twice
    fails the check like two entries with one target: [symlink_specific]
    raises the [ValueError] and leaves the world as it was, so
    [--limit git,git] links nothing. *)
Theorem repeated_name_fails_the_check
    (self : DotfilesManager) (l1 l2 l3 : list string) (n : string)
    (exclude : option (gset string)) (w : World) :
  is_Some (dict_get (config_mapping self) n) →
  n ∉ or_empty exclude →
  ∃ msg, symlink_specific self (l1 ++ n :: l2 ++ n :: l3) exclude w
         = (w, Raise (ValueError msg)).
Proof.
  intros Hn Hex. eexists. apply symlink_specific_collision, collides_duplicates.
  unfold selection_specific.
  assert (Is_true (dict_in n (config_mapping self)) ∧ n ∉ or_empty exclude) as HP.
  { split; [|done]. by apply Is_true_true, dict_in_get. }
  rewrite filter_app, filter_cons, decide_True by done.
  rewrite filter_app, filter_cons, decide_True by done.
  by apply collides_repeated.
Qed.

Lemma repeated_name_fails_the_check_witness :
  is_Some (dict_get (config_mapping Sample.manager) "git")
  ∧ ("git" ∉ or_empty None)
  ∧ ∃ msg, symlink_specific Sample.manager ([] ++ "git" :: [] ++ "git" :: []) None
             (Sample.world Sample.tree)
           = (Sample.world Sample.tree, Raise (ValueError msg)).
Proof.
  assert (is_Some (dict_get (config_mapping Sample.manager) "git")) as H1
    by (eexists; reflexivity).
  assert ("git" ∉ or_empty None) as H2 by (simpl; apply not_elem_of_empty).
  split; [exact H1|]. split; [exact H2|].
  exact (repeated_name_fails_the_check Sample.manager [] [] [] "git" None
           (Sample.world Sample.tree) H1 H2).
Defined.

(** ** A second run *)

Lemma exists_of_node (fs : Fs.t) p nd :
  fs !! p = Some nd → (∀ q, nd ≠ Fs.Symlink q) → Fs.exists_ fs p = true.
Proof.
  intros H Hn. unfold Fs.exists_, Fs.stat. simpl. rewrite H.
  destruct nd; [done|done|]. by destruct (Hn referent).
Qed.

Lemma exists_of_link (fs : Fs.t) t s nd :
  fs !! t = Some (Fs.Symlink s) → root s ≠ NoRoot →
  fs !! s = Some nd → (∀ q, nd ≠ Fs.Symlink q) → Fs.exists_ fs t = true.
Proof.
  intros Ht Hr Hs Hn. unfold Fs.exists_, Fs.stat. simpl. rewrite Ht.
  assert (Fs.referent_from t s = s) as -> by (unfold Fs.referent_from; by destruct (root s)).
  simpl. rewrite Hs. destruct nd; [done|done|]. by destruct (Hn referent).
Qed.

(** X20.  A second run after a backup.  The source is a file or a
    directory with an absolute path; the first call finds a regular file
    at the target, backs it up and links the target.  A second call then
    finds the link: it makes no other backup and writes no backup line,
    it only unlinks the target and links it again; the files are as the
    first call left them, the backup with the old contents among
    them. *)
Theorem second_run_keeps_the_backup
    (s t b : Path) (c : string) (nd : Fs.Node) (w : World) :
  files w !! s = Some nd →
  (∀ q, nd ≠ Fs.Symlink q) →
  root s ≠ NoRoot →
  s ≠ t →
  s ≠ b →
  files w !! t = Some (Fs.File c) →
  files w !! parent t = Some Fs.Dir →
  Pathlib.with_suffix t ".backup" = inr b →
  b ≠ t →
  files w !! b ≠ Some Fs.Dir →
  let w1 := (_create_symlink s t w).1 in
  _create_symlink s t w1
  = (mkWorld (files w1) (stdout w1 ++ [Log INFO (CreatedSymlink t s)])
             (performed w1 ++ [SysUnlink t; SysSymlink s t]),
     Return tt)
  ∧ files w1 !! b = Some (Fs.File c)
  ∧ files w1 !! t = Some (Fs.Symlink s).
Proof.
  intros Hs Hn Hr Hst Hsb Ht Hp Hb Hbt Hbd w1.
  assert (parent t ≠ t) as Hpt by (eapply parent_neq; eauto; done).
  assert (parent t ≠ b) as Hpb.
  { rewrite <- (with_suffix_parent _ _ _ Hb). by eapply with_suffix_has_parts. }
  unfold w1.
  rewrite (create_symlink_backup s t c b w) by (eauto using exists_of_node).
  cbn [fst files stdout performed].
  set (fs1 := <[t:=Fs.Symlink s]> (<[b:=Fs.File c]> (delete t (files w)))).
  assert (fs1 !! t = Some (Fs.Symlink s)) as Ht1 by apply lookup_insert_eq.
  assert (fs1 !! b = Some (Fs.File c)) as Hb1.
  { unfold fs1. by rewrite lookup_insert_ne, lookup_insert_eq. }
  assert (fs1 !! s = Some nd) as Hs1.
  { unfold fs1. by rewrite !lookup_insert_ne, lookup_delete_ne. }
  assert (fs1 !! parent t = Some Fs.Dir) as Hp1.
  { unfold fs1. by rewrite !lookup_insert_ne, lookup_delete_ne. }
  split; [|done].
  rewrite create_symlink_relink; cbn [files stdout performed];
    eauto using exists_of_node, exists_of_link.
Qed.

Lemma second_run_keeps_the_backup_witness :
  let s := Path_of "/d/tmux/tmux.conf" in
  let t := Path_of "/home/u/tmux/tmux.conf" in
  let b := Path_of "/home/u/tmux/tmux.backup" in
  let w := Sample.world Sample.tree in
  let w1 := (_create_symlink s t w).1 in
  files w !! s = Some (Fs.File "new")
  ∧ (∀ q, Fs.File "new" ≠ Fs.Symlink q)
  ∧ root s ≠ NoRoot
  ∧ s ≠ t
  ∧ s ≠ b
  ∧ files w !! t = Some (Fs.File "old")
  ∧ files w !! parent t = Some Fs.Dir
  ∧ Pathlib.with_suffix t ".backup" = inr b
  ∧ b ≠ t
  ∧ files w !! b ≠ Some Fs.Dir
  ∧ files w1 !! b = Some (Fs.File "old").
Proof.
  intros s t b w w1.
  assert (files w !! s = Some (Fs.File "new")) as H1 by (vm_compute; reflexivity).
  assert (∀ q, Fs.File "new" ≠ Fs.Symlink q) as H2 by (intros q; discriminate).
  assert (root s ≠ NoRoot) as H3 by (vm_compute; discriminate).
  assert (s ≠ t) as H4 by (vm_compute; discriminate).
  assert (s ≠ b) as H5 by (vm_compute; discriminate).
  assert (files w !! t = Some (Fs.File "old")) as H6 by (vm_compute; reflexivity).
  assert (files w !! parent t = Some Fs.Dir) as H7 by (vm_compute; reflexivity).
  assert (Pathlib.with_suffix t ".backup" = inr b) as H8 by (vm_compute; reflexivity).
  assert (b ≠ t) as H9 by (vm_compute; discriminate).
  assert (files w !! b ≠ Some Fs.Dir) as H10 by (vm_compute; discriminate).
  repeat (split; [assumption|]).
  exact (proj1 (proj2 (second_run_keeps_the_backup s t b "old" (Fs.File "new") w
                         H1 H2 H3 H4 H5 H6 H7 H8 H9 H10))).
Defined.

(** ** A source that is its own target *)

Lemma stat_follow_self_loop n (fs : Fs.t) p :
  fs !! p = Some (Fs.Symlink p) → root p ≠ NoRoot →
  Fs.stat_follow n fs p = inl Fs.ELOOP.
Proof.
  intros Hp Hr.
  assert (Fs.referent_from p p = p) as Href
    by (unfold Fs.referent_from; by destruct (root p)).
  induction n as [|n IH]; simpl; rewrite Hp; [done|]. by rewrite Href.
Qed.

(** X21.  When the source of an entry is the very path of its target, a
    regular file (the [tmux] entry when the script lies in the home
    directory): [_create_symlink] moves the file to the backup path and
    leaves at the target a link to itself, which does not exist for
    [Path.exists].  It reports the link as created; the next run finds
    the source missing and only warns. *)
Theorem source_equal_to_target_leaves_a_dead_link
    (p b : Path) (c : string) (w : World) :
  root p ≠ NoRoot →
  files w !! p = Some (Fs.File c) →
  files w !! parent p = Some Fs.Dir →
  Pathlib.with_suffix p ".backup" = inr b →
  b ≠ p →
  files w !! b ≠ Some Fs.Dir →
  let w1 := mkWorld (<[p := Fs.Symlink p]> (<[b := Fs.File c]> (delete p (files w))))
                    (stdout w ++ [Log INFO (BackingUp p b);
                                  Log INFO (CreatedSymlink p p)])
                    (performed w ++ [SysRename p b; SysSymlink p p]) in
  _create_symlink p p w = (w1, Return tt)
  ∧ Fs.exists_ (files w1) p = false
  ∧ files w1 !! b = Some (Fs.File c)
  ∧ _create_symlink p p w1
    = (mkWorld (files w1) (stdout w1 ++ [Log WARNING (SourceMissing p)]) (performed w1),
       Return tt).
Proof.
  intros Hr Hp Hpar Hb Hne Hbd w1.
  assert (Fs.exists_ (files w1) p = false) as Hdead.
  { unfold Fs.exists_, Fs.stat. rewrite stat_follow_self_loop; [done| |done].
    apply lookup_insert_eq. }
  split; [|split; [done|split]].
  - apply create_symlink_backup; try done. by eapply exists_of_file.
  - simpl. by rewrite lookup_insert_ne, lookup_insert_eq.
  - by apply create_symlink_source_missing.
Qed.

Lemma source_equal_to_target_leaves_a_dead_link_witness :
  let home := Path_of "/home/u" in
  let p := Path_of "/home/u/tmux/tmux.conf" in
  let b := Path_of "/home/u/tmux/tmux.backup" in
  let w := Sample.world Sample.tree in
  dict_get (_load_config_mapping home home (Path_of "/home/u/.config")) "tmux"
  = Some (mkMapping p p)
  ∧ root p ≠ NoRoot
  ∧ files w !! p = Some (Fs.File "old")
  ∧ files w !! parent p = Some Fs.Dir
  ∧ Pathlib.with_suffix p ".backup" = inr b
  ∧ b ≠ p
  ∧ files w !! b ≠ Some Fs.Dir
  ∧ Fs.exists_ (<[p := Fs.Symlink p]> (<[b := Fs.File "old"]> (delete p (files w)))) p
    = false.
Proof.
  intros home p b w.
  assert (root p ≠ NoRoot) as H1 by (vm_compute; discriminate).
  assert (files w !! p = Some (Fs.File "old")) as H2 by (vm_compute; reflexivity).
  assert (files w !! parent p = Some Fs.Dir) as H3 by (vm_compute; reflexivity).
  assert (Pathlib.with_suffix p ".backup" = inr b) as H4 by (vm_compute; reflexivity).
  assert (b ≠ p) as H5 by (vm_compute; discriminate).
  assert (files w !! b ≠ Some Fs.Dir) as H6 by (vm_compute; discriminate).
  split; [reflexivity|].
  repeat (split; [assumption|]).
  exact (proj1 (proj2 (source_equal_to_target_leaves_a_dead_link p b "old" w
                         H1 H2 H3 H4 H5 H6))).
Defined.

(** * The order and the scope of a run *)

(** The loop handles the names it is given one after the other, each in
    the world the one before it left. *)
Lemma link_each_one_by_one self sel : ∀ w w' r,
  Forall (fun n => is_Some (dict_get (config_mapping self) n)) sel →
  link_each self sel w = (w', r) →
  one_by_one self sel w w' r.
Proof.
  induction sel as [|n rest IH]; intros w w' r Hall.
  - by intros [= <- <-].
  - apply Forall_cons in Hall as [[m Hm] Hall]. rewrite link_each_cons, Hm.
    destruct (_create_symlink (source m) (target m) w) as [w1 r1] eqn:E1.
    intros H. exists m, w1, r1. split; [done|]. split; [done|].
    destruct r1 as [[]|e].
    + by apply IH.
    + by injection H as <- <-.
Qed.

(** The system calls of the loop come in blocks, one for each entry
    that was begun, in the order of the selection. *)
Lemma link_each_blocks self sel : ∀ w w' r,
  link_each self sel w = (w', r) →
  ∃ started blocks,
    started `prefix_of` sel
    ∧ performed w' = performed w ++ concat blocks
    ∧ Forall2 (calls_of self) started blocks
    ∧ (r = Return tt → started = sel).
Proof.
  induction sel as [|n rest IH]; intros w w' r.
  - intros [= <- <-]. exists [], []. simpl. rewrite app_nil_r.
    by repeat split.
  - rewrite link_each_cons.
    destruct (dict_get (config_mapping self) n) as [m|] eqn:Hm.
    2: { intros [= <- <-]. exists [], []. simpl. rewrite app_nil_r.
         split; [apply prefix_nil|]. split; [done|]. split; [constructor|done]. }
    destruct (_create_symlink (source m) (target m) w) as [w1 r1] eqn:E1.
    destruct (create_symlink_calls _ _ _ _ _ E1) as (c1 & Hp1 & Hb1).
    assert (calls_of self n c1) as Hc1.
    { exists m. split; [done|]. by destruct m. }
    destruct r1 as [[]|e1].
    + intros H. destruct (IH _ _ _ H) as (started & blocks & Hpre & Hp & Hall & Hret).
      exists (n :: started), (c1 :: blocks). split; [by apply prefix_cons|]. split.
      { simpl. by rewrite Hp, Hp1, app_assoc. }
      split; [by constructor|]. intros Hr. by rewrite Hret.
    + intros [= <- <-]. exists [n], [c1]. split.
      { by apply prefix_cons, prefix_nil. }
      split; [simpl; by rewrite app_nil_r|]. split; [|done].
      by repeat constructor.
Qed.

(** C3, as the code has it.  After a check that passed, the entries are
    handled strictly one after the other in the order of the selection:
    [_create_symlink] runs on the first entry in the world the run starts
    in and on every other entry in the world (files, output, system calls)
    the entry before it left, and the run ends after the last entry or at
    the first one that raises.  So the system calls of the run come in
    blocks, one for each entry begun, in the order of the selection, and
    the closing lines written to the log are those of the selection's
    names, in order, one for each name handled.  For [symlink_all] the
    selection stands in the order of the mapping table; for
    [symlink_specific] it stands in the order of the list that was
    given. *)
Theorem entries_processed_in_selection_order
    (self : DotfilesManager) (dotfiles : list string)
    (exclude : option (gset string)) (w w' : World) (r : Outcome unit) :
  (let sel := selection_all self (or_empty exclude) in
   duplicates self sel = [] →
   symlink_all self exclude w = (w', r) →
   table_order self sel = sel
   ∧ one_by_one self sel w w' r
   ∧ (∃ started blocks,
        started `prefix_of` sel
        ∧ performed w' = performed w ++ concat blocks
        ∧ Forall2 (calls_of self) started blocks
        ∧ (r = Return tt → started = sel))
   ∧ ∃ out done_,
       stdout w' = stdout w ++ out
       ∧ done_ `prefix_of` sel
       ∧ Forall2 (reports self) done_ (filter (fun o => is_outcome o) out)
       ∧ (r = Return tt → done_ = sel))
  ∧ (let sel := selection_specific self dotfiles (or_empty exclude) in
     duplicates self sel = [] →
     symlink_specific self dotfiles exclude w = (w', r) →
     sel `sublist_of` dotfiles
     ∧ one_by_one self sel w w' r
     ∧ (∃ started blocks,
          started `prefix_of` sel
          ∧ performed w' = performed w ++ concat blocks
          ∧ Forall2 (calls_of self) started blocks
          ∧ (r = Return tt → started = sel))
     ∧ ∃ out done_,
         stdout w' = stdout w ++ out
         ∧ done_ `prefix_of` sel
         ∧ Forall2 (reports self) done_ (filter (fun o => is_outcome o) out)
         ∧ (r = Return tt → done_ = sel)).
Proof.
  split; intros sel Hd Hrun.
  - split; [apply selection_all_table_order|].
    rewrite symlink_all_passed in Hrun by done.
    split; [|split].
    + apply link_each_one_by_one; [apply selection_all_known|done].
    + by eapply link_each_blocks.
    + by eapply link_each_reports.
  - split; [apply sublist_filter|].
    rewrite symlink_specific_passed in Hrun by done.
    split; [|split].
    + apply link_each_one_by_one; [apply selection_specific_known_names|done].
    + by eapply link_each_blocks.
    + by eapply link_each_reports.
Qed.

Lemma entries_processed_in_selection_order_witness :
  let w := Sample.world Sample.tree in
  let run := symlink_specific Sample.manager ["tmux"; "git"] None w in
  let sel := selection_specific Sample.manager ["tmux"; "git"] ∅ in
  duplicates Sample.manager sel = []
  ∧ sel `sublist_of` ["tmux"; "git"]
  ∧ one_by_one Sample.manager sel w run.1 run.2
  ∧ (∃ started blocks,
       started `prefix_of` sel
       ∧ performed run.1 = performed w ++ concat blocks
       ∧ Forall2 (calls_of Sample.manager) started blocks
       ∧ (run.2 = Return tt → started = sel))
  ∧ ∃ out done_,
      stdout run.1 = stdout w ++ out
      ∧ done_ `prefix_of` sel
      ∧ Forall2 (reports Sample.manager) done_ (filter (fun o => is_outcome o) out)
      ∧ (run.2 = Return tt → done_ = sel).
Proof.
  intros w run sel.
  assert (duplicates Sample.manager sel = []) as Hd by reflexivity.
  split; [exact Hd|].
  exact (proj2 (entries_processed_in_selection_order
                  Sample.manager ["tmux"; "git"] None w run.1 run.2)
               Hd (surjective_pairing run)).
Defined.

(** C3 as the specification states it fails for an explicit list:
    [--limit tmux,git] passes the check and handles ["tmux"] before
    ["git"], as the warnings it writes on an empty machine show, while
    the mapping table has ["git"] before ["tmux"]. *)
Lemma inclusion_list_not_in_table_order :
  let sel := selection_specific Sample.manager ["tmux"; "git"] ∅ in
  let run := symlink_specific Sample.manager ["tmux"; "git"] None (Sample.world ∅) in
  duplicates Sample.manager sel = []
  ∧ sel = ["tmux"; "git"]
  ∧ table_order Sample.manager sel = ["git"; "tmux"]
  ∧ run.2 = Return tt
  ∧ stdout run.1
    = [Log WARNING (SourceMissing (Path_of "/d/tmux/tmux.conf"));
       Log WARNING (SourceMissing (Path_of "/d/git/config"))].
Proof. vm_compute. repeat split; reflexivity. Qed.

Lemma selection_specific_elem self dotfiles exclude n :
  n ∈ selection_specific self dotfiles exclude
  ↔ n ∈ dotfiles ∧ Is_true (dict_in n (config_mapping self)) ∧ n ∉ exclude.
Proof. unfold selection_specific. rewrite list_elem_of_filter. tauto. Qed.

(** C6.  [symlink_specific] treats a list exactly as it treats the list
    without the names the table does not know: same result, same files,
    same output, same system calls, wherever the unknown names stand; a
    list of unknown names alone returns at once and changes nothing.
    The names it goes on with are exactly the names of the list that are
    known and not excluded, in the order of the list.  These are
    validated: when two of them have one target the [ValueError] of the
    check is raised and nothing is done.  Otherwise they are applied:
    [_create_symlink] runs on each of them, one after the other. *)
Theorem unknown_names_silently_dropped
    (self : DotfilesManager) (dotfiles : list string)
    (exclude : option (gset string)) (w : World) :
  symlink_specific self dotfiles exclude w
  = symlink_specific self
      (filter (fun n => Is_true (dict_in n (config_mapping self))) dotfiles) exclude w
  ∧ symlink_specific self
      (filter (fun n => ¬ Is_true (dict_in n (config_mapping self))) dotfiles) exclude w
    = (w, Return tt)
  ∧ Forall (fun n => Is_true (dict_in n (config_mapping self)) ∧ n ∉ or_empty exclude)
           (selection_specific self dotfiles (or_empty exclude))
  ∧ (∀ n, n ∈ selection_specific self dotfiles (or_empty exclude)
          ↔ n ∈ dotfiles ∧ Is_true (dict_in n (config_mapping self))
            ∧ n ∉ or_empty exclude)
  ∧ selection_specific self dotfiles (or_empty exclude) `sublist_of` dotfiles
  ∧ (collides self (selection_specific self dotfiles (or_empty exclude)) →
     symlink_specific self dotfiles exclude w
     = (w, Raise (ValueError
                    (error_msg (duplicates self
                                  (selection_specific self dotfiles
                                                      (or_empty exclude)))))))
  ∧ (¬ collides self (selection_specific self dotfiles (or_empty exclude)) →
     one_by_one self (selection_specific self dotfiles (or_empty exclude)) w
                (symlink_specific self dotfiles exclude w).1
                (symlink_specific self dotfiles exclude w).2).
Proof.
  split; [|split; [|split; [|split; [|split; [|split]]]]].
  - unfold symlink_specific. by rewrite selection_specific_known.
  - unfold symlink_specific. by rewrite selection_specific_unknown.
  - apply Forall_forall. by intros n [? _]%list_elem_of_filter.
  - intros n. apply selection_specific_elem.
  - apply sublist_filter.
  - intros Hc. by apply symlink_specific_collision, collides_duplicates.
  - intros Hc.
    assert (duplicates self (selection_specific self dotfiles (or_empty exclude)) = [])
      as Hd.
    { destruct (decide (duplicates self
                          (selection_specific self dotfiles (or_empty exclude)) = []))
        as [?|Hne]; [done|]. destruct Hc. by apply duplicates_collides. }
    apply link_each_one_by_one; [apply selection_specific_known_names|].
    rewrite <- symlink_specific_passed by done. apply surjective_pairing.
Qed.
